(** * AI Spine SDK (JavaScript): retrying HTTP executor, error taxonomy,
    webhook signatures and webhook event dispatch.

  A shallow embedding of [errors.ts], [client.ts] and [webhooks.ts].

  JavaScript numbers are modelled as [Z]: every number the embedded
  code computes on (HTTP statuses, retry counts, millisecond delays,
  Unix timestamps) is an integer, and the model is exact as long as
  those stay inside the range in which IEEE doubles are exact
  (|n| < 2^53).  JavaScript strings are modelled by the byte string of
  their UTF-8 encoding.  [undefined] is [None]. *)

From Stdlib Require Import ZArith List String Ascii Bool Lia Arith Permutation.
From Stdlib Require Import DecimalString.
Import ListNotations.
Open Scope string_scope.
Open Scope Z_scope.

(** ** JavaScript helpers *)

Module Js.

(** [`${n}`] for an integer-valued number. *)
Definition string_of_Z (n : Z) : string :=
  NilZero.string_of_int (Z.to_int n).

(** [x || d] on an optional number: [undefined], [0] (and NaN, which the
    model does not have) are falsy. *)
Definition or_number (x : option Z) (d : Z) : Z :=
  match x with
  | Some v => if v =? 0 then d else v
  | None => d
  end.

(** [x || d] on an optional string: [undefined] and [''] are falsy. *)
Definition or_string (x : option string) (d : string) : string :=
  match x with
  | Some EmptyString => d
  | Some v => v
  | None => d
  end.

(** [x || d] where both sides may be [undefined]. *)
Definition or_string_opt (x d : option string) : option string :=
  match x with
  | Some EmptyString => d
  | Some v => Some v
  | None => d
  end.

(** [x || d] on an optional boolean. *)
Definition or_bool (x : option bool) (d : bool) : bool :=
  match x with
  | Some true => true
  | _ => d
  end.

(** [x ?? d]: only [undefined]/[null] select the default. *)
Definition nullish {A : Type} (x : option A) (d : A) : A :=
  match x with
  | Some v => v
  | None => d
  end.

(** [!x] on an optional string. *)
Definition falsy_string (x : option string) : bool :=
  match x with
  | Some EmptyString => true
  | Some _ => false
  | None => true
  end.

End Js.

(** ** errors.ts *)

Module Errors.

(** The [code] strings the error classes pass to [super]. *)
Inductive ErrorCode : Type :=
| AUTHENTICATION_ERROR
| AUTHORIZATION_ERROR
| VALIDATION_ERROR
| NOT_FOUND
| RATE_LIMIT_ERROR
| NETWORK_ERROR
| TIMEOUT_ERROR
| SERVER_ERROR
| UNKNOWN_ERROR.

Definition code_string (c : ErrorCode) : string :=
  match c with
  | AUTHENTICATION_ERROR => "AUTHENTICATION_ERROR"
  | AUTHORIZATION_ERROR => "AUTHORIZATION_ERROR"
  | VALIDATION_ERROR => "VALIDATION_ERROR"
  | NOT_FOUND => "NOT_FOUND"
  | RATE_LIMIT_ERROR => "RATE_LIMIT_ERROR"
  | NETWORK_ERROR => "NETWORK_ERROR"
  | TIMEOUT_ERROR => "TIMEOUT_ERROR"
  | SERVER_ERROR => "SERVER_ERROR"
  | UNKNOWN_ERROR => "UNKNOWN_ERROR"
  end.

(** [Record<string, any>], kept as a list of entries. *)
Definition Details : Type := list (string * string).

(** [ValidationError] of types.ts: a field and its message. *)
Record ValidationErrorType : Type := {
  ve_field : string;
  ve_message : string
}.

(** An instance of [AISpineError] or of one of its subclasses.  [name] is
    the class name the constructor stores; the subclass fields
    ([validationErrors], [retryAfter]) are [None] where the class has
    none. *)
Record AISpineError : Type := {
  name : string;
  message : string;
  code : ErrorCode;
  status : option Z;
  details : option Details;
  validationErrors : option (list ValidationErrorType);
  retryAfter : option Z
}.

Definition new_AISpineError (message : string) (code : ErrorCode)
    (status : option Z) (details : option Details) : AISpineError :=
  {| name := "AISpineError"; message := message; code := code;
     status := status; details := details;
     validationErrors := None; retryAfter := None |}.

Definition new_AuthenticationError (message : option string)
    (details : option Details) : AISpineError :=
  {| name := "AuthenticationError";
     message := Js.nullish message "Authentication failed";
     code := AUTHENTICATION_ERROR; status := Some 401; details := details;
     validationErrors := None; retryAfter := None |}.

Definition new_AuthorizationError (message : option string)
    (details : option Details) : AISpineError :=
  {| name := "AuthorizationError";
     message := Js.nullish message "Authorization failed";
     code := AUTHORIZATION_ERROR; status := Some 403; details := details;
     validationErrors := None; retryAfter := None |}.

Definition new_ValidationError (message : string)
    (validationErrors : option (list ValidationErrorType))
    (details : option Details) : AISpineError :=
  {| name := "ValidationError"; message := message;
     code := VALIDATION_ERROR; status := Some 400; details := details;
     validationErrors := Some (Js.nullish validationErrors []);
     retryAfter := None |}.

Definition new_NotFoundError (resource : string) (id : option string)
    : AISpineError :=
  {| name := "NotFoundError";
     message :=
       match id with
       | Some EmptyString | None => resource ++ " not found"
       | Some i => resource ++ " with id '" ++ i ++ "' not found"
       end;
     code := NOT_FOUND; status := Some 404; details := None;
     validationErrors := None; retryAfter := None |}.

Definition new_RateLimitError (message : option string)
    (retryAfter : option Z) (details : option Details) : AISpineError :=
  {| name := "RateLimitError";
     message := Js.nullish message "Rate limit exceeded";
     code := RATE_LIMIT_ERROR; status := Some 429; details := details;
     validationErrors := None; retryAfter := retryAfter |}.

Definition new_NetworkError (message : option string)
    (details : option Details) : AISpineError :=
  {| name := "NetworkError";
     message := Js.nullish message "Network error occurred";
     code := NETWORK_ERROR; status := None; details := details;
     validationErrors := None; retryAfter := None |}.

Definition new_TimeoutError (timeout : Z) (details : option Details)
    : AISpineError :=
  {| name := "TimeoutError";
     message := "Request timed out after " ++ Js.string_of_Z timeout ++ "ms";
     code := TIMEOUT_ERROR; status := Some 408; details := details;
     validationErrors := None; retryAfter := None |}.

Definition new_ServerError (message : option string) (status : option Z)
    (details : option Details) : AISpineError :=
  {| name := "ServerError";
     message := Js.nullish message "Internal server error";
     code := SERVER_ERROR; status := Some (Js.nullish status 500);
     details := details;
     validationErrors := None; retryAfter := None |}.

(** The JSON error envelope of a failed response ([data: any]); every
    field is optional. *)
Record ErrorBody : Type := {
  body_message : option string;
  body_error : option string;
  body_details : option Details;
  body_validation_errors : option (list ValidationErrorType);
  body_retry_after : option Z;
  body_timeout : option Z
}.

(** [data?.f] *)
Definition opt_field {A : Type} (data : option ErrorBody)
    (f : ErrorBody -> option A) : option A :=
  match data with
  | Some d => f d
  | None => None
  end.

(** [createErrorFromResponse(status, data, message)] *)
Definition createErrorFromResponse (status : Z) (data : option ErrorBody)
    (message : option string) : AISpineError :=
  let errorMessage :=
    Js.or_string
      (Js.or_string_opt message
         (Js.or_string_opt (opt_field data body_message)
            (opt_field data body_error)))
      "An error occurred" in
  let details := opt_field data body_details in
  if status =? 400 then
    new_ValidationError errorMessage
      (opt_field data body_validation_errors) details
  else if status =? 401 then
    new_AuthenticationError (Some errorMessage) details
  else if status =? 403 then
    new_AuthorizationError (Some errorMessage) details
  else if status =? 404 then
    new_NotFoundError errorMessage None
  else if status =? 408 then
    new_TimeoutError (Js.or_number (opt_field data body_timeout) 30000)
      details
  else if status =? 429 then
    new_RateLimitError (Some errorMessage)
      (opt_field data body_retry_after) details
  else if (status =? 500) || (status =? 502) || (status =? 503)
          || (status =? 504) then
    new_ServerError (Some errorMessage) (Some status) details
  else
    new_AISpineError errorMessage UNKNOWN_ERROR (Some status) details.

(** The kinds of the error taxonomy; an error's kind is read off the
    [code] its class stores. *)
Inductive Kind : Type :=
| validation_kind
| authentication_kind
| authorization_kind
| not_found_kind
| rate_limit_kind
| timeout_kind
| network_kind
| server_kind
| unknown_kind.

Definition kind_of (e : AISpineError) : Kind :=
  match code e with
  | VALIDATION_ERROR => validation_kind
  | AUTHENTICATION_ERROR => authentication_kind
  | AUTHORIZATION_ERROR => authorization_kind
  | NOT_FOUND => not_found_kind
  | RATE_LIMIT_ERROR => rate_limit_kind
  | TIMEOUT_ERROR => timeout_kind
  | NETWORK_ERROR => network_kind
  | SERVER_ERROR => server_kind
  | UNKNOWN_ERROR => unknown_kind
  end.

(** The HTTP status a kind stands for, where it stands for exactly one. *)
Definition canonical_status (k : Kind) : option Z :=
  match k with
  | validation_kind => Some 400
  | authentication_kind => Some 401
  | authorization_kind => Some 403
  | not_found_kind => Some 404
  | timeout_kind => Some 408
  | rate_limit_kind => Some 429
  | network_kind | server_kind | unknown_kind => None
  end.

End Errors.

(** ** client.ts *)

Module Client.
Import Errors.

(** The constructor's argument: every field but the key is optional, and
    the key may be absent at run time. *)
Record AISpineConfig : Type := {
  in_apiKey : option string;
  in_baseURL : option string;
  in_timeout : option Z;
  in_retries : option Z;
  in_debug : option bool
}.

(** [Required<AISpineConfig>], the configuration the client keeps. *)
Record Config : Type := {
  apiKey : string;
  baseURL : string;
  timeout : Z;
  retries : Z;
  debug : bool
}.

(** The "Set defaults" block of the constructor.  A string argument is
    the backward-compatible form [{ apiKey: config }]. *)
Definition constructor (arg : AISpineConfig + string) : Config :=
  let config :=
    match arg with
    | inl c => c
    | inr key =>
        {| in_apiKey := Some key; in_baseURL := None; in_timeout := None;
           in_retries := None; in_debug := None |}
    end in
  {| apiKey := Js.or_string (in_apiKey config) "sk_no_auth_required";
     baseURL :=
       Js.or_string (in_baseURL config) "https://ai-spine-api.up.railway.app";
     timeout := Js.or_number (in_timeout config) 30000;
     retries := Js.or_number (in_retries config) 3;
     debug := Js.or_bool (in_debug config) false |}.

(** [RequestOptions] *)
Record RequestOptions : Type := {
  opt_timeout : option Z;
  opt_retries : option Z;
  opt_headers : option (list (string * string))
}.

Definition no_options : RequestOptions :=
  {| opt_timeout := None; opt_retries := None; opt_headers := None |}.

(** The part of an [AxiosResponse] the executor copies out. *)
Record AxiosResponse : Type := {
  resp_data : string;
  resp_status : Z;
  resp_statusText : string;
  resp_headers : list (string * string)
}.

(** [error.response] of an [AxiosError]. *)
Record ErrorResponse : Type := {
  err_status : Z;
  err_data : option ErrorBody
}.

Record AxiosError : Type := {
  ax_code : option string;
  ax_message : string;
  ax_response : option ErrorResponse
}.

(** [handleError] *)
Definition handleError (cfg : Config) (error : AxiosError) : AISpineError :=
  match ax_response error with
  | None =>
      if match ax_code error with
         | Some c => (c =? "ECONNABORTED")%string || (c =? "ETIMEDOUT")%string
         | None => false
         end
      then new_TimeoutError (timeout cfg) None
      else new_NetworkError (Some (ax_message error))
             (Some ((match ax_code error with
                     | Some c => [("code", c)]
                     | None => []
                     end ++ [("originalError", ax_message error)])%list))
  | Some r =>
      createErrorFromResponse (err_status r) (err_data r)
        (Some (ax_message error))
  end.

(** What one call of the axios instance does before the response
    interceptor: it answers, or it fails with an error object.  Every
    failure reaches the interceptor's error callback, also one that is not
    an [AxiosError] proper; such an error has no [response]. *)
Inductive TransportResult : Type :=
| Responded (r : AxiosResponse)
| Failed (e : AxiosError).

(** What awaiting [requestFn()] gives the executor.  A request function
    built on the axios instance only rejects with an [AISpineError]; the
    executor also provides for anything else. *)
Inductive Rejection : Type :=
| RejectedWith (e : AISpineError)
| RejectedOther (what : string).

Inductive Settled : Type :=
| Fulfilled (r : AxiosResponse)
| Rejected (why : Rejection).

(** The response interceptor: a failure is rejected with
    [handleError(error)].  The [n]-th call of the request function is the
    [n]-th use of the transport. *)
Definition http (cfg : Config) (transport : nat -> TransportResult)
    (n : nat) : Settled :=
  match transport n with
  | Responded r => Fulfilled r
  | Failed e => Rejected (RejectedWith (handleError cfg e))
  end.

(** [SDKResponse] *)
Record SDKResponse : Type := {
  data : string;
  sdk_status : Z;
  statusText : string;
  headers : list (string * string)
}.

(** What the executor does that can be seen from outside. *)
Inductive Event : Type :=
| EvRequest (attempt : Z)
| EvSleep (ms : Z)
| EvLog (line : string).

(** How [executeWithRetry] ends: it returns, or it throws [lastError],
    which is [undefined] ([None]) when the loop body never ran. *)
Inductive Completion : Type :=
| Returned (r : SDKResponse)
| Threw (e : option AISpineError).

Definition is_terminal_status (s : option Z) : bool :=
  match s with
  | Some v => (v =? 400) || (v =? 401) || (v =? 403) || (v =? 404)
  | None => false
  end.

(** [Math.min(1000 * Math.pow(2, attempt), 10000)] *)
Definition retry_delay (attempt : Z) : Z :=
  Z.min (1000 * 2 ^ attempt) 10000.

(** The [for] loop of [executeWithRetry], from the test of its condition
    on.  [calls] counts the uses of [requestFn] so far.  [fuel] bounds the
    iterations; [None] is only returned when it runs out. *)
Fixpoint retry_loop (fuel : nat) (cfg : Config) (requestFn : nat -> Settled)
    (maxRetries : Z) (attempt : Z) (calls : nat)
    (lastError : option AISpineError) : option (Completion * list Event) :=
  if attempt <=? maxRetries then
    match fuel with
    | O => None
    | S fuel' =>
        match requestFn calls with
        | Fulfilled response =>
            Some (Returned {| data := resp_data response;
                              sdk_status := resp_status response;
                              statusText := resp_statusText response;
                              headers := resp_headers response |},
                  [EvRequest attempt])
        | Rejected why =>
            let lastError' :=
              match why with
              | RejectedWith e => e
              | RejectedOther what =>
                  new_AISpineError "Unexpected error" UNKNOWN_ERROR None
                    (Some [("originalError", what)])
              end in
            if is_terminal_status (status lastError') then
              Some (Threw (Some lastError'), [EvRequest attempt])
            else if attempt =? maxRetries then
              Some (Threw (Some lastError'), [EvRequest attempt])
            else
              let delay := retry_delay attempt in
              let log :=
                if debug cfg then
                  [EvLog ("[AI Spine SDK] Retrying request (attempt "
                          ++ Js.string_of_Z (attempt + 2) ++ "/"
                          ++ Js.string_of_Z (maxRetries + 1) ++ ") after "
                          ++ Js.string_of_Z delay ++ "ms")]
                else [] in
              match retry_loop fuel' cfg requestFn maxRetries (attempt + 1)
                      (S calls) (Some lastError') with
              | Some (c, tr) =>
                  Some (c, (EvRequest attempt :: EvSleep delay :: log ++ tr)%list)
              | None => None
              end
        end
    end
  else Some (Threw lastError, []).

(** [options.retries ?? this.config.retries] *)
Definition effective_retries (cfg : Config) (options : RequestOptions) : Z :=
  Js.nullish (opt_retries options) (retries cfg).

(** [executeWithRetry(requestFn, options)].  The loop runs at most
    [maxRetries + 1] times, which is the fuel it is given. *)
Definition executeWithRetry (cfg : Config) (requestFn : nat -> Settled)
    (options : RequestOptions) : option (Completion * list Event) :=
  let maxRetries := effective_retries cfg options in
  retry_loop (Z.to_nat (maxRetries + 1)) cfg requestFn maxRetries 0 0 None.

(** [get], [post], [put], [delete] and [patch] all run the axios call
    under [executeWithRetry] with the caller's options. *)
Definition request (cfg : Config) (transport : nat -> TransportResult)
    (options : RequestOptions) : option (Completion * list Event) :=
  executeWithRetry cfg (http cfg transport) options.

(** Observations on a trace. *)
Definition is_request (e : Event) : bool :=
  match e with EvRequest _ => true | _ => false end.

Definition is_log (e : Event) : bool :=
  match e with EvLog _ => true | _ => false end.

Definition attempts (tr : list Event) : Z :=
  Z.of_nat (List.length (filter is_request tr)).

Fixpoint sleeps (tr : list Event) : list Z :=
  match tr with
  | [] => []
  | EvSleep ms :: tr' => ms :: sleeps tr'
  | _ :: tr' => sleeps tr'
  end.

(** The trace with the debug lines dropped. *)
Definition actions (tr : list Event) : list Event :=
  filter (fun e => negb (is_log e)) tr.

(** The schedule of a request that fails [n] more times after attempt
    [attempt] and is retried each time: request, sleep, request, ...,
    ending in a request. *)
Fixpoint backoff_schedule (n : nat) (attempt : Z) : list Event :=
  match n with
  | O => [EvRequest attempt]
  | S n' =>
      EvRequest attempt :: EvSleep (retry_delay attempt)
        :: backoff_schedule n' (attempt + 1)
  end.

End Client.

(** ** Node's [crypto] and [Buffer], as far as webhooks.ts uses them *)

Module Node.

(** The bytes of a string. *)
Definition bytes_of_string (s : string) : list Z :=
  map (fun c => Z.of_N (N_of_ascii c)) (list_ascii_of_string s).

(** *** SHA-256 (FIPS 180-4) on 32-bit words kept in [Z] *)

Definition add32 (a b : Z) : Z := (a + b) mod 2 ^ 32.

Definition rotr (n x : Z) : Z :=
  Z.lor (Z.shiftr x n) ((Z.shiftl x (32 - n)) mod 2 ^ 32).

Definition Ch (x y z : Z) : Z :=
  Z.lxor (Z.land x y) (Z.land (Z.lxor x 0xffffffff) z).

Definition Maj (x y z : Z) : Z :=
  Z.lxor (Z.lxor (Z.land x y) (Z.land x z)) (Z.land y z).

Definition Sigma0 (x : Z) : Z :=
  Z.lxor (Z.lxor (rotr 2 x) (rotr 13 x)) (rotr 22 x).

Definition Sigma1 (x : Z) : Z :=
  Z.lxor (Z.lxor (rotr 6 x) (rotr 11 x)) (rotr 25 x).

Definition sigma0 (x : Z) : Z :=
  Z.lxor (Z.lxor (rotr 7 x) (rotr 18 x)) (Z.shiftr x 3).

Definition sigma1 (x : Z) : Z :=
  Z.lxor (Z.lxor (rotr 17 x) (rotr 19 x)) (Z.shiftr x 10).

(** The first 64 primes. *)
Definition primes64 : list Z :=
  [ 2; 3; 5; 7; 11; 13; 17; 19; 23; 29; 31; 37; 41; 43; 47; 53; 59; 61; 67;
    71; 73; 79; 83; 89; 97; 101; 103; 107; 109; 113; 127; 131; 137; 139;
    149; 151; 157; 163; 167; 173; 179; 181; 191; 193; 197; 199; 211; 223;
    227; 229; 233; 239; 241; 251; 257; 263; 269; 271; 277; 281; 283; 293;
    307; 311 ].

(** The integer cube root of a number below 2^(3 * bits), one bit at a
    time from the top. *)
Fixpoint cube_root (bits : nat) (x acc : Z) : Z :=
  match bits with
  | O => acc
  | S b =>
      let next := acc + 2 ^ Z.of_nat b in
      cube_root b x (if next * next * next <=? x then next else acc)
  end.

(** The round constants: the first 32 bits of the fractional part of the
    cube root of each of the first 64 primes (0x428a2f98, 0x71374491, ...,
    0xc67178f2). *)
Definition K256 : list Z :=
  Eval vm_compute in
    map (fun p => cube_root 36 (p * 2 ^ 96) 0 mod 2 ^ 32) primes64.

(** The initial hash value: the first 32 bits of the fractional part of
    the square root of each of the first 8 primes (0x6a09e667, ...,
    0x5be0cd19). *)
Definition H256 : list Z :=
  Eval vm_compute in
    map (fun p => Z.sqrt (p * 2 ^ 64) mod 2 ^ 32) (firstn 8 primes64).

(** Big-endian bytes of a number, [n] of them. *)
Fixpoint be_bytes (n : nat) (x : Z) : list Z :=
  match n with
  | O => []
  | S n' => (Z.shiftr x (8 * Z.of_nat n')) mod 256 :: be_bytes n' x
  end.

(** The message followed by 0x80, zeros up to 56 mod 64, and the bit
    length on eight bytes. *)
Definition pad (msg : list Z) : list Z :=
  let len := Z.of_nat (List.length msg) in
  let zeros := Z.to_nat ((55 - len) mod 64) in
  (msg ++ 0x80 :: repeat 0 zeros ++ be_bytes 8 (8 * len))%list.

(** Big-endian 32-bit words of a byte list; a short tail is dropped
    (there is none after [pad]). *)
Fixpoint words (fuel : nat) (bs : list Z) : list Z :=
  match fuel, bs with
  | S fuel', b0 :: b1 :: b2 :: b3 :: rest =>
      (((b0 * 256 + b1) * 256 + b2) * 256 + b3) :: words fuel' rest
  | _, _ => []
  end.

(** The message schedule, newest word first: [rev_w] holds
    W(t-1), W(t-2), ... *)
Fixpoint extend (n : nat) (rev_w : list Z) : list Z :=
  match n with
  | O => rev_w
  | S n' =>
      let w :=
        add32 (add32 (sigma1 (nth 1 rev_w 0)) (nth 6 rev_w 0))
              (add32 (sigma0 (nth 14 rev_w 0)) (nth 15 rev_w 0)) in
      extend n' (w :: rev_w)
  end.

Definition schedule (block : list Z) : list Z :=
  rev (extend 48 (rev block)).

Record Regs : Type := {
  ra : Z; rb : Z; rc : Z; rd : Z; re : Z; rf : Z; rg : Z; rh : Z
}.

Definition round (s : Regs) (kw : Z * Z) : Regs :=
  let t1 :=
    add32 (add32 (add32 (rh s) (Sigma1 (re s)))
                 (add32 (Ch (re s) (rf s) (rg s)) (fst kw))) (snd kw) in
  let t2 := add32 (Sigma0 (ra s)) (Maj (ra s) (rb s) (rc s)) in
  {| ra := add32 t1 t2; rb := ra s; rc := rb s; rd := rc s;
     re := add32 (rd s) t1; rf := re s; rg := rf s; rh := rg s |}.

Definition compress (h : Regs) (block : list Z) : Regs :=
  let s := fold_left round (combine K256 (schedule block)) h in
  {| ra := add32 (ra h) (ra s); rb := add32 (rb h) (rb s);
     rc := add32 (rc h) (rc s); rd := add32 (rd h) (rd s);
     re := add32 (re h) (re s); rf := add32 (rf h) (rf s);
     rg := add32 (rg h) (rg s); rh := add32 (rh h) (rh s) |}.

(** The 16-word blocks of a word list. *)
Fixpoint blocks (fuel : nat) (ws : list Z) : list (list Z) :=
  match fuel, ws with
  | S fuel', _ :: _ => firstn 16 ws :: blocks fuel' (skipn 16 ws)
  | _, _ => []
  end.

Definition initial_regs : Regs :=
  {| ra := nth 0 H256 0; rb := nth 1 H256 0; rc := nth 2 H256 0;
     rd := nth 3 H256 0; re := nth 4 H256 0; rf := nth 5 H256 0;
     rg := nth 6 H256 0; rh := nth 7 H256 0 |}.

(** The 32-byte digest. *)
Definition sha256 (msg : list Z) : list Z :=
  let padded := pad msg in
  let ws := words (List.length padded) padded in
  let h := fold_left compress (blocks (List.length ws) ws) initial_regs in
  flat_map (be_bytes 4)
    [ra h; rb h; rc h; rd h; re h; rf h; rg h; rh h].

(** *** HMAC (RFC 2104) with SHA-256, block size 64 *)

Definition hmac_sha256 (key msg : list Z) : list Z :=
  let k0 :=
    if (64 <? List.length key)%nat then sha256 key else key in
  let k := (k0 ++ repeat 0 (64 - List.length k0))%list in
  let ipad := map (fun b => Z.lxor b 0x36) k in
  let opad := map (fun b => Z.lxor b 0x5c) k in
  sha256 (opad ++ sha256 (ipad ++ msg)).

(** *** Hexadecimal *)

Definition hex_digit (n : Z) : ascii :=
  match n mod 16 with
  | 0 => "0" | 1 => "1" | 2 => "2" | 3 => "3" | 4 => "4"
  | 5 => "5" | 6 => "6" | 7 => "7" | 8 => "8" | 9 => "9"
  | 10 => "a" | 11 => "b" | 12 => "c" | 13 => "d" | 14 => "e"
  | _ => "f"
  end%char.

(** [digest('hex')] *)
Fixpoint hex_of_bytes (bs : list Z) : string :=
  match bs with
  | [] => EmptyString
  | b :: rest =>
      String (hex_digit (b / 16)) (String (hex_digit b) (hex_of_bytes rest))
  end.

(** [crypto.createHmac('sha256', secret).update(s, 'utf8').digest('hex')] *)
Definition createHmac_sha256_hex (secret s : string) : string :=
  hex_of_bytes (hmac_sha256 (bytes_of_string secret) (bytes_of_string s)).

(** The value of a hexadecimal digit, either case. *)
Definition hex_value (c : ascii) : option Z :=
  let n := Z.of_N (N_of_ascii c) in
  if (48 <=? n) && (n <=? 57) then Some (n - 48)
  else if (97 <=? n) && (n <=? 102) then Some (n - 87)
  else if (65 <=? n) && (n <=? 70) then Some (n - 55)
  else None.

(** [Buffer.from(s, 'hex')]: pairs of digits are decoded up to the first
    pair that is not hexadecimal; an odd last character is dropped. *)
Fixpoint Buffer_from_hex (s : string) : list Z :=
  match s with
  | String c1 (String c2 rest) =>
      match hex_value c1, hex_value c2 with
      | Some h, Some l => (h * 16 + l) :: Buffer_from_hex rest
      | _, _ => []
      end
  | _ => []
  end.

Fixpoint bytes_eqb (a b : list Z) : bool :=
  match a, b with
  | [], [] => true
  | x :: a', y :: b' => (x =? y) && bytes_eqb a' b'
  | _, _ => false
  end.

(** [crypto.timingSafeEqual(a, b)]: a [RangeError] ([inr], with its
    message) when the byte lengths differ. *)
Definition timingSafeEqual (a b : list Z) : bool + string :=
  if (List.length a =? List.length b)%nat then inl (bytes_eqb a b)
  else inr "Input buffers must have the same byte length".

End Node.

(** ** webhooks.ts: [WebhookSignature] *)

Module WebhookSignature.

(** [s.split(sep)] for a one-character separator: never empty, the empty
    string splits into one empty piece. *)
Fixpoint split (sep : ascii) (s : string) : list string :=
  match s with
  | EmptyString => [EmptyString]
  | String c rest =>
      if Ascii.eqb c sep then EmptyString :: split sep rest
      else
        match split sep rest with
        | piece :: pieces => String c piece :: pieces
        | [] => [String c EmptyString]
        end
  end.

(** The white space [parseInt] skips (WhiteSpace and LineTerminator of
    ECMAScript), on the UTF-8 bytes: TAB, LF, VT, FF, CR, SP, U+00A0,
    U+1680, U+2000..U+200A, U+2028, U+2029, U+202F, U+205F, U+3000 and
    U+FEFF. *)
Fixpoint skip_white (bs : list Z) : list Z :=
  match bs with
  | 9 :: rest | 10 :: rest | 11 :: rest | 12 :: rest | 13 :: rest
  | 32 :: rest => skip_white rest
  | 0xC2 :: 0xA0 :: rest => skip_white rest
  | 0xE1 :: 0x9A :: 0x80 :: rest => skip_white rest
  | 0xE2 :: 0x80 :: b :: rest =>
      if ((0x80 <=? b) && (b <=? 0x8A)) || (b =? 0xA8) || (b =? 0xA9)
         || (b =? 0xAF)
      then skip_white rest else bs
  | 0xE2 :: 0x81 :: 0x9F :: rest => skip_white rest
  | 0xE3 :: 0x80 :: 0x80 :: rest => skip_white rest
  | 0xEF :: 0xBB :: 0xBF :: rest => skip_white rest
  | _ => bs
  end.

(** The value of the longest prefix of decimal digits, [None] when there
    is no digit. *)
Fixpoint digits (acc : option Z) (bs : list Z) : option Z :=
  match bs with
  | b :: rest =>
      if (48 <=? b) && (b <=? 57)
      then digits (Some (10 * Js.nullish acc 0 + (b - 48))) rest
      else acc
  | [] => acc
  end.

(** [parseInt(s, 10)]; [None] is NaN. *)
Definition parseInt (s : string) : option Z :=
  match skip_white (Node.bytes_of_string s) with
  | 45 :: rest => option_map Z.opp (digits None rest)
  | 43 :: rest => digits None rest
  | bs => digits None bs
  end.

(** [WebhookSignatureOptions] *)
Record WebhookSignatureOptions : Type := {
  secret : string;
  timestamp : string;
  payload : string
}.

(** [WebhookVerificationResult] *)
Record WebhookVerificationResult : Type := {
  valid : bool;
  error : option string
}.

(** [WebhookSignature.generate(options)] *)
Definition generate (options : WebhookSignatureOptions) : string :=
  let signedPayload := timestamp options ++ "." ++ payload options in
  let signature := Node.createHmac_sha256_hex (secret options) signedPayload in
  "t=" ++ timestamp options ++ ",v1=" ++ signature.

(** The [for (const element of elements)] loop of [verify]: the state is
    [timestamp] and [signatures].  [value] is [undefined] for an element
    without [=]. *)
Fixpoint scan_elements (elements : list string)
    (timestamp : option string) (signatures : list (option string))
    : option string * list (option string) :=
  match elements with
  | [] => (timestamp, signatures)
  | element :: rest =>
      let parts := split "=" element in
      let key := hd EmptyString parts in
      let value := nth_error parts 1 in
      if (key =? "t")%string then scan_elements rest value signatures
      else if (key =? "v1")%string then
        scan_elements rest timestamp (signatures ++ [value])%list
      else scan_elements rest timestamp signatures
  end.

(** [signatures.some(signature => crypto.timingSafeEqual(
    Buffer.from(signature, 'hex'), Buffer.from(expectedSignature, 'hex')))]:
    [inr] carries the message of the exception that ends it. *)
Fixpoint some_matches (signatures : list (option string))
    (expectedSignature : string) : bool + string :=
  match signatures with
  | [] => inl false
  | None :: _ =>
      inr ("The first argument must be of type string or an instance of "
           ++ "Buffer, ArrayBuffer, or Array or an Array-like Object. "
           ++ "Received undefined")
  | Some signature :: rest =>
      match Node.timingSafeEqual (Node.Buffer_from_hex signature)
              (Node.Buffer_from_hex expectedSignature) with
      | inl true => inl true
      | inl false => some_matches rest expectedSignature
      | inr msg => inr msg
      end
  end.

(** [WebhookSignature.verify(receivedSignature, payload, secret,
    tolerance)]; [now] is what [Date.now()] returns, and a [tolerance] of
    [None] is the omitted argument (300). *)
Definition verify (now : Z) (receivedSignature payload secret : string)
    (tolerance : option Z) : WebhookVerificationResult :=
  let tolerance := Js.nullish tolerance 300 in
  let elements := split "," receivedSignature in
  let '(timestamp, signatures) := scan_elements elements None [] in
  if Js.falsy_string timestamp then
    {| valid := false; error := Some "Missing timestamp in signature" |}
  else
    let timestamp := Js.nullish timestamp EmptyString in
    if match parseInt timestamp with
       | Some seconds => now - seconds * 1000 >? tolerance * 1000
       | None => false
       end
    then
      {| valid := false; error := Some "Timestamp outside tolerance window" |}
    else
      let expectedSignature :=
        Node.createHmac_sha256_hex secret (timestamp ++ "." ++ payload) in
      match some_matches signatures expectedSignature with
      | inl isValid => {| valid := isValid; error := None |}
      | inr msg =>
          {| valid := false;
             error := Some ("Signature verification failed: " ++ msg) |}
      end.

(** The timestamp [verify] finds in a header. *)
Definition header_timestamp (receivedSignature : string) : option string :=
  fst (scan_elements (split "," receivedSignature) None []).

(** The one-sided staleness test of [verify], and the two-sided window of
    the specification. *)
Definition stale (now seconds tolerance : Z) : Prop :=
  now - seconds * 1000 > tolerance * 1000.

Definition outside_window (now seconds tolerance : Z) : Prop :=
  Z.abs (now - seconds * 1000) > tolerance * 1000.

Definition timestamp_rejection : WebhookVerificationResult :=
  {| valid := false; error := Some "Timestamp outside tolerance window" |}.

End WebhookSignature.

(** ** webhooks.ts: [WebhookEventHandler] *)

Module WebhookEventHandler.

(** [WebhookEventType] of types.ts; [wildcard] is ['*']. *)
Inductive WebhookEventType : Type :=
| execution_started
| execution_completed
| execution_failed
| execution_node_completed
| execution_node_failed
| agent_registered
| agent_updated
| agent_removed
| flow_created
| flow_updated
| flow_deleted
| system_health_changed
| wildcard.

Definition type_string (t : WebhookEventType) : string :=
  match t with
  | execution_started => "execution.started"
  | execution_completed => "execution.completed"
  | execution_failed => "execution.failed"
  | execution_node_completed => "execution.node.completed"
  | execution_node_failed => "execution.node.failed"
  | agent_registered => "agent.registered"
  | agent_updated => "agent.updated"
  | agent_removed => "agent.removed"
  | flow_created => "flow.created"
  | flow_updated => "flow.updated"
  | flow_deleted => "flow.deleted"
  | system_health_changed => "system.health.changed"
  | wildcard => "*"
  end.

Definition type_eq_dec (a b : WebhookEventType) : {a = b} + {a <> b}.
Proof. decide equality. Defined.

Definition type_eqb (a b : WebhookEventType) : bool :=
  if type_eq_dec a b then true else false.

(** [WebhookEvent] *)
Record WebhookEvent : Type := {
  id : string;
  event : WebhookEventType;
  data : string;
  timestamp : string;
  webhook_id : string;
  signature : option string;
  attempt : Z
}.

(** A handler is a function object; the registry tells handlers apart by
    reference, which is a number here. *)
Definition HandlerRef : Type := nat.

(** A [Set] of handlers in insertion order. *)
Definition HandlerSet : Type := list HandlerRef.

Definition set_has (h : HandlerRef) (s : HandlerSet) : bool :=
  existsb (Nat.eqb h) s.

Definition set_add (h : HandlerRef) (s : HandlerSet) : HandlerSet :=
  if set_has h s then s else (s ++ [h])%list.

Definition set_delete (h : HandlerRef) (s : HandlerSet) : HandlerSet :=
  filter (fun x => negb (Nat.eqb h x)) s.

(** [this.handlers]: a [Map] from event type to handler set, in insertion
    order of its keys. *)
Definition Registry : Type := list (WebhookEventType * HandlerSet).

Fixpoint map_get (t : WebhookEventType) (m : Registry) : option HandlerSet :=
  match m with
  | [] => None
  | (k, s) :: rest => if type_eqb k t then Some s else map_get t rest
  end.

Definition map_has (t : WebhookEventType) (m : Registry) : bool :=
  match map_get t m with Some _ => true | None => false end.

(** [Map.prototype.set]: an existing key keeps its place. *)
Fixpoint map_set (t : WebhookEventType) (s : HandlerSet) (m : Registry)
    : Registry :=
  match m with
  | [] => [(t, s)]
  | (k, s0) :: rest =>
      if type_eqb k t then (k, s) :: rest else (k, s0) :: map_set t s rest
  end.

Definition map_delete (t : WebhookEventType) (m : Registry) : Registry :=
  filter (fun entry => negb (type_eqb (fst entry) t)) m.

(** [new Map()] *)
Definition empty : Registry := [].

(** [on(eventType, handler)].  The handler sets are objects held by the
    map, so adding to the set found under the key is writing the grown set
    back under it. *)
Definition on (eventType : WebhookEventType) (handler : HandlerRef)
    (handlers : Registry) : Registry :=
  let handlers :=
    if negb (map_has eventType handlers) then map_set eventType [] handlers
    else handlers in
  match map_get eventType handlers with
  | Some s => map_set eventType (set_add handler s) handlers
  | None => handlers
  end.

(** [off(eventType, handler)] *)
Definition off (eventType : WebhookEventType) (handler : HandlerRef)
    (handlers : Registry) : Registry :=
  match map_get eventType handlers with
  | Some s =>
      let s' := set_delete handler s in
      let handlers := map_set eventType s' handlers in
      if (List.length s' =? 0)%nat then map_delete eventType handlers
      else handlers
  | None => handlers
  end.

(** [getRegisteredEvents()] *)
Definition getRegisteredEvents (handlers : Registry)
    : list WebhookEventType :=
  map fst handlers.

(** [removeAllHandlers()] *)
Definition removeAllHandlers (handlers : Registry) : Registry := [].

(** The mutating operations of the class, and a run of them. *)
Inductive Op : Type :=
| On (eventType : WebhookEventType) (handler : HandlerRef)
| Off (eventType : WebhookEventType) (handler : HandlerRef)
| RemoveAllHandlers.

Definition apply_op (handlers : Registry) (op : Op) : Registry :=
  match op with
  | On t h => on t h handlers
  | Off t h => off t h handlers
  | RemoveAllHandlers => removeAllHandlers handlers
  end.

Definition run_ops (ops : list Op) : Registry :=
  fold_left apply_op ops empty.

(** *** Dispatch *)

(** How the promise a handler returns ends. *)
Inductive PromiseEnd : Type :=
| Resolves
| Rejects (err : string)
| NeverSettles.

(** What calling a handler does: it returns nothing, it throws before
    returning, or it returns a promise. *)
Inductive CallResult : Type :=
| ReturnsVoid
| ThrowsSync (err : string)
| ReturnsPromise (p : PromiseEnd).

(** The behaviour of the registered functions: what the [n]-th call
    (counted from 0 within one [emit]) of a handler does on an event.
    Handlers are taken not to register or remove handlers while an [emit]
    is in progress. *)
Definition Behaviour : Type :=
  HandlerRef -> nat -> WebhookEvent -> CallResult.

(** The two [Promise.all] groups of [emit]. *)
Inductive Group : Type :=
| SpecificGroup
| WildcardGroup.

Inductive Event : Type :=
| EvInvoke (g : Group) (h : HandlerRef)
| EvConsoleError (line : string) (err : string)
| EvSettled (g : Group) (h : HandlerRef).

(** How the promise [emit] returns ends. *)
Inductive EmitEnd : Type :=
| EmitResolved
| EmitRejected (err : string)
| EmitPending.

(** The first argument of the [console.error] of a group. *)
Definition error_line (g : Group) (e : WebhookEvent) : string :=
  match g with
  | SpecificGroup =>
      "Error in webhook handler for " ++ type_string (event e) ++ ":"
  | WildcardGroup => "Error in wildcard webhook handler:"
  end.

Definition calls_of (h : HandlerRef) (called : list HandlerRef) : nat :=
  List.length (filter (Nat.eqb h) called).

(** [Array.from(set).map(handler => Promise.resolve(handler(event))
    .catch(...))]: the handlers are called one after the other; each
    result is wrapped into a promise that is left pending.  A handler that
    throws ends the [map] with that exception ([Some err]): the handlers
    after it are not called.  [called] lists the calls made so far. *)
Fixpoint launch (run : Behaviour) (e : WebhookEvent) (g : Group)
    (hs : list HandlerRef) (called : list HandlerRef)
    : list Event * list (HandlerRef * PromiseEnd) * option string
      * list HandlerRef :=
  match hs with
  | [] => ([], [], None, called)
  | h :: rest =>
      let called' := (called ++ [h])%list in
      match run h (calls_of h called) e with
      | ThrowsSync err => ([EvInvoke g h], [], Some err, called')
      | result =>
          let p :=
            match result with
            | ReturnsPromise p => p
            | _ => Resolves
            end in
          let '(evs, pending, thrown, called'') :=
            launch run e g rest called' in
          (EvInvoke g h :: evs, (h, p) :: pending, thrown, called'')
      end
  end.

(** The pending promises of a group settling, in the order given: a
    rejection runs the [catch] callback, which logs and fulfils. *)
Fixpoint settle (e : WebhookEvent) (g : Group)
    (pending : list (HandlerRef * PromiseEnd)) : list Event :=
  match pending with
  | [] => []
  | (h, Resolves) :: rest => EvSettled g h :: settle e g rest
  | (h, Rejects err) :: rest =>
      EvConsoleError (error_line g e) err :: EvSettled g h
        :: settle e g rest
  | (h, NeverSettles) :: rest => settle e g rest
  end.

Definition never_settles (p : HandlerRef * PromiseEnd) : bool :=
  match snd p with NeverSettles => true | _ => false end.

(** One [if (group) { await Promise.all(...) }] block.  [sched] is the
    order in which the event loop settles the promises of a group. *)
Definition run_group
    (sched : list (HandlerRef * PromiseEnd) -> list (HandlerRef * PromiseEnd))
    (run : Behaviour) (e : WebhookEvent) (g : Group)
    (group : option HandlerSet) (called : list HandlerRef)
    : EmitEnd * list Event * list HandlerRef :=
  match group with
  | None => (EmitResolved, [], called)
  | Some hs =>
      let '(evs, pending, thrown, called') := launch run e g hs called in
      let settled := settle e g (sched pending) in
      match thrown with
      | Some err => (EmitRejected err, (evs ++ settled)%list, called')
      | None =>
          if existsb never_settles pending
          then (EmitPending, (evs ++ settled)%list, called')
          else (EmitResolved, (evs ++ settled)%list, called')
      end
  end.

(** [emit(event)]: the group of the event's own type, awaited, then the
    group of ['*'], awaited. *)
Definition emit
    (sched : list (HandlerRef * PromiseEnd) -> list (HandlerRef * PromiseEnd))
    (run : Behaviour) (handlers : Registry) (e : WebhookEvent)
    : EmitEnd * list Event :=
  let specificHandlers := map_get (event e) handlers in
  let '(end1, tr1, called1) :=
    run_group sched run e SpecificGroup specificHandlers [] in
  match end1 with
  | EmitResolved =>
      let wildcardHandlers := map_get wildcard handlers in
      let '(end2, tr2, _) :=
        run_group sched run e WildcardGroup wildcardHandlers called1 in
      (end2, (tr1 ++ tr2)%list)
  | _ => (end1, tr1)
  end.

(** Observations on a trace. *)
Definition invocations (h : HandlerRef) (tr : list Event) : nat :=
  List.length
    (filter (fun ev => match ev with
                       | EvInvoke _ x => Nat.eqb h x
                       | _ => false
                       end) tr).

Definition is_invoke (ev : Event) : bool :=
  match ev with EvInvoke _ _ => true | _ => false end.

Definition is_invoke_in (g : Group) (ev : Event) : bool :=
  match ev, g with
  | EvInvoke SpecificGroup _, SpecificGroup
  | EvInvoke WildcardGroup _, WildcardGroup => true
  | _, _ => false
  end.

(** Whether a handler is in the set kept under an event type. *)
Definition registered (t : WebhookEventType) (h : HandlerRef)
    (handlers : Registry) : bool :=
  match map_get t handlers with
  | Some s => set_has h s
  | None => false
  end.

(** Handlers that never throw before returning, and handlers whose
    promises all settle, on an event. *)
Definition no_sync_throw (run : Behaviour) (e : WebhookEvent) : Prop :=
  forall h n err, run h n e <> ThrowsSync err.

Definition all_settle (run : Behaviour) (e : WebhookEvent) : Prop :=
  forall h n, run h n e <> ReturnsPromise NeverSettles.

(** No entry of the registry has an empty handler set, and no set lists a
    handler twice. *)
Definition well_formed (handlers : Registry) : Prop :=
  Forall (fun entry => snd entry <> [] /\ NoDup (snd entry)) handlers.

(** The event loop settling promises in the order they were made. *)
Definition in_order (pending : list (HandlerRef * PromiseEnd))
    : list (HandlerRef * PromiseEnd) := pending.

(** A test event of a given type. *)
Definition test_event (t : WebhookEventType) : WebhookEvent :=
  {| id := "evt_test"; event := t; data := "{}";
     timestamp := "2024-01-01T00:00:00.000Z"; webhook_id := "wh_test";
     signature := None; attempt := 1 |}.

End WebhookEventHandler.


(** ** The tables of the specification *)

Module Spec.
Import Errors.

(** HTTP status to kind, as the specification lists it; a status outside
    the table is of kind unknown. *)
Definition status_table : list (Z * Kind) :=
  [ (400, validation_kind); (401, authentication_kind);
    (403, authorization_kind); (404, not_found_kind);
    (408, timeout_kind); (429, rate_limit_kind);
    (500, server_kind); (502, server_kind); (503, server_kind);
    (504, server_kind) ].

Fixpoint lookup_status (s : Z) (table : list (Z * Kind)) : Kind :=
  match table with
  | [] => unknown_kind
  | (k, v) :: rest => if s =? k then v else lookup_status s rest
  end.

Definition spec_kind_of_status (s : Z) : Kind := lookup_status s status_table.

(** The codes of a failure without response that signal a timeout. *)
Definition is_timeout_code (c : option string) : bool :=
  match c with
  | Some c => (c =? "ECONNABORTED")%string || (c =? "ETIMEDOUT")%string
  | None => false
  end.

(** The delays of the specification: 1000, 2000, 4000, ... capped at
    10000, for the attempts 0 .. n-1. *)
Definition spec_delays (n : nat) : list Z :=
  map (fun a => Z.min (1000 * 2 ^ Z.of_nat a) 10000) (seq 0 n).

(** Whether a character occurs in a string. *)
Fixpoint has_char (c : ascii) (s : string) : bool :=
  match s with
  | EmptyString => false
  | String c' rest => Ascii.eqb c' c || has_char c rest
  end.

Fixpoint all_digits (s : string) : bool :=
  match s with
  | EmptyString => true
  | String c rest =>
      let n := Z.of_N (N_of_ascii c) in
      (48 <=? n) && (n <=? 57) && all_digits rest
  end.

(** A timestamp in Unix seconds, as the signature format has it: a
    non-empty string of decimal digits. *)
Definition is_unix_seconds (t : string) : bool :=
  match t with
  | EmptyString => false
  | _ => all_digits t
  end.

End Spec.

(** ** Scenarios the properties are instantiated on *)

Module Scenarios.
Import Client WebhookEventHandler.

(** A client with the default configuration and a server that always
    answers 503. *)
Definition default_client : Config := constructor (inr "sk_test_key").

Definition always_503 (_ : nat) : TransportResult :=
  Failed {| ax_code := Some "ERR_BAD_RESPONSE";
            ax_message := "Request failed with status code 503";
            ax_response := Some {| err_status := 503; err_data := None |} |}.

(** A server that always answers 404. *)
Definition always_404 (_ : nat) : TransportResult :=
  Failed {| ax_code := Some "ERR_BAD_REQUEST";
            ax_message := "Request failed with status code 404";
            ax_response := Some {| err_status := 404; err_data := None |} |}.

(** Handlers that all return a promise that is fulfilled. *)
Definition all_resolve : Behaviour := fun _ _ _ => ReturnsPromise Resolves.

(** Handlers that all return normally. *)
Definition all_return : Behaviour := fun _ _ _ => ReturnsVoid.

(** Handler 1 throws before returning; the others return normally. *)
Definition first_throws : Behaviour :=
  fun h _ _ =>
    match h with
    | 1%nat => ThrowsSync "Handler error"
    | _ => ReturnsVoid
    end.

(** Handler 1 returns a promise that is rejected; the others return
    normally. *)
Definition first_rejects : Behaviour :=
  fun h _ _ =>
    match h with
    | 1%nat => ReturnsPromise (Rejects "Handler error")
    | _ => ReturnsVoid
    end.

End Scenarios.

(** ** client.ts: the client object and [updateConfig] *)

Module ClientState.
Import Client.

(** The defaults of the axios instance that the client sets and updates. *)
Record HttpDefaults : Type := {
  d_baseURL : string;
  d_timeout : Z;
  d_authorization : string
}.

(** The two private fields of [AISpineClient]. *)
Record State : Type := {
  config : Config;
  defaults : HttpDefaults
}.

(** [new AISpineClient(config)]: the configuration with its defaults, and
    the axios instance created from it. *)
Definition new_AISpineClient (arg : AISpineConfig + string) : State :=
  let c := constructor arg in
  {| config := c;
     defaults := {| d_baseURL := baseURL c;
                    d_timeout := timeout c;
                    d_authorization := "Bearer " ++ apiKey c |} |}.

(** [Partial<AISpineConfig>]: [None] is a property that is absent.  (A
    property that is present with the value [undefined] is not
    represented.) *)
Record ConfigUpdates : Type := {
  up_apiKey : option string;
  up_baseURL : option string;
  up_timeout : option Z;
  up_retries : option Z;
  up_debug : option bool
}.

Definition no_updates : ConfigUpdates :=
  {| up_apiKey := None; up_baseURL := None; up_timeout := None;
     up_retries := None; up_debug := None |}.

(** [updateConfig(updates)]: [Object.assign] copies every property the
    update has; the axios defaults follow only for a truthy [baseURL],
    [timeout] or [apiKey]. *)
Definition updateConfig (updates : ConfigUpdates) (st : State) : State :=
  let c := config st in
  let d := defaults st in
  {| config :=
       {| apiKey := Js.nullish (up_apiKey updates) (apiKey c);
          baseURL := Js.nullish (up_baseURL updates) (baseURL c);
          timeout := Js.nullish (up_timeout updates) (timeout c);
          retries := Js.nullish (up_retries updates) (retries c);
          debug := Js.nullish (up_debug updates) (debug c) |};
     defaults :=
       {| d_baseURL := Js.or_string (up_baseURL updates) (d_baseURL d);
          d_timeout := Js.or_number (up_timeout updates) (d_timeout d);
          d_authorization :=
            match up_apiKey updates with
            | Some EmptyString | None => d_authorization d
            | Some key => "Bearer " ++ key
            end |} |}.

(** [getConfig()] *)
Definition getConfig (st : State) : Config := config st.

(** The axios defaults agree with the configuration. *)
Definition in_sync (st : State) : Prop :=
  d_baseURL (defaults st) = baseURL (config st)
  /\ d_timeout (defaults st) = timeout (config st)
  /\ d_authorization (defaults st) = "Bearer " ++ apiKey (config st).

(** An update whose [baseURL], [timeout] and [apiKey], where present, are
    truthy. *)
Definition truthy_updates (u : ConfigUpdates) : Prop :=
  up_baseURL u <> Some EmptyString
  /\ up_timeout u <> Some 0
  /\ up_apiKey u <> Some EmptyString.

End ClientState.

(** ** The executor, attempt by attempt *)

Module Attempts.
Import Errors Client.

(** [lastError] after a rejection: the error itself, or the wrapper for
    anything that is not an [AISpineError]. *)
Definition thrown_error (why : Rejection) : AISpineError :=
  match why with
  | RejectedWith e => e
  | RejectedOther what =>
      new_AISpineError "Unexpected error" UNKNOWN_ERROR None
        (Some [("originalError", what)])
  end.

(** Whether the loop ends on an attempt with this outcome whatever the
    remaining budget: a response, or an error with status 400, 401, 403 or
    404. *)
Definition stops (o : Settled) : bool :=
  match o with
  | Fulfilled _ => true
  | Rejected why => is_terminal_status (status (thrown_error why))
  end.

(** What the executor ends with when its last attempt has this outcome. *)
Definition completion_of (o : Settled) : Completion :=
  match o with
  | Fulfilled response =>
      Returned {| data := resp_data response;
                  sdk_status := resp_status response;
                  statusText := resp_statusText response;
                  headers := resp_headers response |}
  | Rejected why => Threw (Some (thrown_error why))
  end.

(** A transport failure the executor retries: no response at all, or a
    response whose status is not 400, 401, 403 or 404. *)
Definition retryable_failure (e : AxiosError) : bool :=
  match ax_response e with
  | None => true
  | Some r =>
      negb ((err_status r =? 400) || (err_status r =? 401)
            || (err_status r =? 403) || (err_status r =? 404))
  end.

(** The first truthy string of a list, or a default. *)
Fixpoint first_truthy (candidates : list (option string)) (default : string)
    : string :=
  match candidates with
  | [] => default
  | Some EmptyString :: rest | None :: rest => first_truthy rest default
  | Some s :: _ => s
  end.

End Attempts.

(** ** webhooks.ts: [WebhookRetry] *)

Module WebhookRetry.

Record WebhookRetry : Type := {
  maxRetries : Z;
  baseDelay : Z
}.


(** [getRetryDelay(attempt)], for the attempts 1, 2, ... ([Math.pow(2,
    attempt - 1)] is not an integer below that). *)
Definition getRetryDelay (r : WebhookRetry) (attempt : Z) : Z :=
  Z.min (baseDelay r * 2 ^ (attempt - 1)) 30000.

(** [shouldRetry(status, attempt)] *)
Definition shouldRetry (r : WebhookRetry) (status attempt : Z) : bool :=
  if attempt >=? maxRetries r then false
  else (status >=? 500) || (status =? 408) || (status =? 429).

(** [getNextRetryTime(attempt)], as milliseconds since the epoch; [now] is
    what [Date.now()] returns. *)
Definition getNextRetryTime (now : Z) (r : WebhookRetry) (attempt : Z) : Z :=
  now + getRetryDelay r attempt.

End WebhookRetry.

(** ** webhooks.ts: [createWebhookMiddleware] *)

Module WebhookMiddleware.
Import WebhookSignature.

(** [req.body]: a string, or any other value, which is kept as the text
    that [JSON.stringify] and the template literal of [verify] make of
    it. *)
Inductive Body : Type :=
| BodyString (s : string)
| BodyOther (stringified : string).

(** The request, as far as the middleware reads it. *)
Record Request : Type := {
  x_ai_spine_signature : option string;
  body : Body
}.

(** What the middleware does with a request: it answers with a status and
    [{ error }], or it calls [next()]. *)
Inductive Outcome : Type :=
| Replied (status : Z) (error : string)
| CalledNext.

(** The text the middleware verifies. *)
Definition payload_text (b : Body) : string :=
  match b with
  | BodyString s => s
  | BodyOther stringified => stringified
  end.

(** The function [createWebhookMiddleware(secret, tolerance)] returns,
    applied to a request at time [now]. *)
Definition createWebhookMiddleware (secret : string) (tolerance : option Z)
    (now : Z) (req : Request) : Outcome :=
  let tolerance := Js.nullish tolerance 300 in
  if Js.falsy_string (x_ai_spine_signature req) then
    Replied 400 "Missing webhook signature"
  else
    let signature := Js.nullish (x_ai_spine_signature req) EmptyString in
    let payloadString :=
      match body req with
      | BodyString s => s
      | BodyOther stringified => stringified
      end in
    let verification := verify now signature payloadString secret (Some tolerance) in
    if negb (valid verification) then
      Replied 401 (Js.or_string (error verification) "Invalid signature")
    else CalledNext.

End WebhookMiddleware.

(** ** Observations used by the further properties *)

Module Observations.
Import WebhookEventHandler.

(** A byte value. *)
Definition is_byte (b : Z) : Prop := 0 <= b < 256.

(** Lower-case hexadecimal digits. *)
Definition is_lower_hex (c : ascii) : bool :=
  let n := Z.of_N (N_of_ascii c) in
  ((48 <=? n) && (n <=? 57)) || ((97 <=? n) && (n <=? 102)).

Fixpoint all_lower_hex (s : string) : bool :=
  match s with
  | EmptyString => true
  | String c rest => is_lower_hex c && all_lower_hex rest
  end.

(** The key of a header element, as [verify] reads it. *)
Definition element_key (element : string) : string :=
  hd EmptyString (WebhookSignature.split "=" element).

(** The handlers a trace invokes, in order, with their group. *)
Definition invoke_events (tr : list Event) : list Event :=
  filter is_invoke tr.

(** The handlers kept under an event type, none when there is no entry. *)
Definition handlers_of (t : WebhookEventType) (handlers : Registry)
    : HandlerSet :=
  Js.nullish (map_get t handlers) [].

(** A handler whose promise never settles, the others returning
    normally. *)
Definition hangs (h : HandlerRef) : Behaviour :=
  fun x _ _ => if Nat.eqb x h then ReturnsPromise NeverSettles else ReturnsVoid.

End Observations.

(** ** Further scenarios *)

Module MoreScenarios.
Import Client.

(** A connection that times out on every attempt. *)
Definition always_times_out (_ : nat) : TransportResult :=
  Failed {| ax_code := Some "ECONNABORTED";
            ax_message := "timeout of 30000ms exceeded";
            ax_response := None |}.

(** A server that answers 503 twice and then 200. *)
Definition third_time_lucky (n : nat) : TransportResult :=
  match n with
  | 0%nat | 1%nat =>
      Failed {| ax_code := Some "ERR_BAD_RESPONSE";
                ax_message := "Request failed with status code 503";
                ax_response :=
                  Some {| err_status := 503; err_data := None |} |}
  | _ =>
      Responded {| resp_data := "{ok:true}"; resp_status := 200;
                   resp_statusText := "OK"; resp_headers := [] |}
  end.

(** A request function that always rejects with a [TypeError]. *)
Definition always_crashes (_ : nat) : Settled :=
  Rejected (RejectedOther "TypeError").

(** A 500 response whose body carries a message of the server. *)
Definition failed_with_body : AxiosError :=
  {| ax_code := Some "ERR_BAD_RESPONSE";
     ax_message := "Request failed with status code 500";
     ax_response :=
       Some {| err_status := 500;
               err_data :=
                 Some {| Errors.body_message := Some "database unavailable";
                         Errors.body_error := None;
                         Errors.body_details := None;
                         Errors.body_validation_errors := None;
                         Errors.body_retry_after := None;
                         Errors.body_timeout := None |} |} |}.

(** The update [{ retries: 0 }]. *)
Definition zero_retries : ClientState.ConfigUpdates :=
  {| ClientState.up_apiKey := None; ClientState.up_baseURL := None;
     ClientState.up_timeout := None; ClientState.up_retries := Some 0;
     ClientState.up_debug := None |}.

End MoreScenarios.

(** * Properties *)

(** ** The model of SHA-256 and HMAC against published values *)

Module NodeFacts.
Import Node.

Example K256_ends :
  List.length K256 = 64%nat
  /\ nth 0 K256 0 = 0x428a2f98 /\ nth 63 K256 0 = 0xc67178f2.
Proof. repeat split. Qed.

Example H256_ends :
  List.length H256 = 8%nat
  /\ nth 0 H256 0 = 0x6a09e667 /\ nth 7 H256 0 = 0x5be0cd19.
Proof. repeat split. Qed.

(** FIPS 180-4, the one-block message "abc". *)
Example sha256_abc :
  hex_of_bytes (sha256 (bytes_of_string "abc"))
  = "ba7816bf8f01cfea414140de5dae2223b00361a396177a9cb410ff61f20015ad".
Proof. vm_compute. reflexivity. Qed.

(** The empty message. *)
Example sha256_empty :
  hex_of_bytes (sha256 [])
  = "e3b0c44298fc1c149afbf4c8996fb92427ae41e4649b934ca495991b7852b855".
Proof. vm_compute. reflexivity. Qed.

(** RFC 4231, test case 2: key "Jefe". *)
Example hmac_sha256_rfc4231_2 :
  createHmac_sha256_hex "Jefe" "what do ya want for nothing?"
  = "5bdcc146bf60754e6a042426089575c75a003f089d2739839dec58b964ec3843".
Proof. vm_compute. reflexivity. Qed.

(** [Buffer.from(s, 'hex')] stops at the first pair that is not
    hexadecimal, and drops an odd last digit. *)
Example Buffer_from_hex_truncates :
  Buffer_from_hex "abzzcd" = [171] /\ Buffer_from_hex "ABc" = [171]
  /\ Buffer_from_hex "invalid_signature" = [].
Proof. repeat split. Qed.

End NodeFacts.

(** ** The error taxonomy and the retrying executor *)

Module ClientFacts.
Import Errors Client Spec Scenarios.

Lemma createErrorFromResponse_kind (s : Z) (d : option ErrorBody)
    (m : option string) :
  kind_of (createErrorFromResponse s d m) = spec_kind_of_status s.
Proof.
  unfold createErrorFromResponse, spec_kind_of_status, status_table,
    lookup_status.
  repeat match goal with
         | |- context [?a =? ?b] => destruct (a =? b); cbn [orb]
         end; reflexivity.
Qed.

Lemma createErrorFromResponse_status (s : Z) (d : option ErrorBody)
    (m : option string) :
  status (createErrorFromResponse s d m) = Some s.
Proof.
  unfold createErrorFromResponse.
  repeat match goal with
         | |- context [?a =? ?b] =>
             destruct (Z.eqb_spec a b); [subst; reflexivity |]; cbn [orb]
         end.
  reflexivity.
Qed.

(** An error built from a response carries the canonical status of its
    kind, when the kind has one. *)
Lemma createErrorFromResponse_canonical (s : Z) (d : option ErrorBody)
    (m : option string) :
  match canonical_status (kind_of (createErrorFromResponse s d m)) with
  | Some c => status (createErrorFromResponse s d m) = Some c
  | None => True
  end.
Proof.
  unfold createErrorFromResponse.
  repeat match goal with
         | |- context [?a =? ?b] =>
             destruct (Z.eqb_spec a b); [subst; cbn; auto |]; cbn [orb]
         end.
  exact I.
Qed.

(** C3.  Classification is total and follows the table: without a
    response, the codes ECONNABORTED and ETIMEDOUT give kind timeout and
    everything else kind network; with a response the kind is the one the
    status table gives (unknown outside it); and an error whose kind has a
    canonical HTTP status carries that status. *)
Theorem classification_follows_table (cfg : Config) (error : AxiosError) :
  kind_of (handleError cfg error)
  = match ax_response error with
    | None =>
        if is_timeout_code (ax_code error) then timeout_kind
        else network_kind
    | Some r => spec_kind_of_status (err_status r)
    end
  /\ match canonical_status (kind_of (handleError cfg error)) with
     | Some s => status (handleError cfg error) = Some s
     | None => True
     end.
Proof.
  unfold handleError.
  destruct (ax_response error) as [r|].
  - split.
    + apply createErrorFromResponse_kind.
    + apply createErrorFromResponse_canonical.
  - unfold is_timeout_code.
    destruct (ax_code error) as [c|].
    + destruct ((c =? "ECONNABORTED")%string || (c =? "ETIMEDOUT")%string);
        split; first [reflexivity | exact I].
    + split; first [reflexivity | exact I].
Qed.

(** *** The retry loop *)

(** The loop always ends within the fuel [executeWithRetry] gives it. *)
Lemma retry_loop_total (cfg : Config) (requestFn : nat -> Settled)
    (maxRetries : Z) (fuel : nat) :
  forall (attempt : Z) (calls : nat) (last : option AISpineError),
    (Z.to_nat (maxRetries + 1 - attempt) <= fuel)%nat ->
    exists c tr,
      retry_loop fuel cfg requestFn maxRetries attempt calls last
      = Some (c, tr).
Proof.
  induction fuel as [|fuel IH]; intros attempt calls last Hfuel; cbn.
  - destruct (Z.leb_spec attempt maxRetries); [lia | eauto].
  - destruct (Z.leb_spec attempt maxRetries); [|eauto].
    destruct (requestFn calls) as [r|why]; [eauto|].
    destruct (is_terminal_status _); [eauto|].
    destruct (Z.eqb_spec attempt maxRetries); [eauto|].
    match goal with
    | |- context [retry_loop fuel cfg requestFn maxRetries ?a ?c ?l] =>
        destruct (IH a c l) as (c' & tr' & ->); [lia | eauto]
    end.
Qed.

Theorem executeWithRetry_total (cfg : Config) (requestFn : nat -> Settled)
    (options : RequestOptions) :
  exists c tr, executeWithRetry cfg requestFn options = Some (c, tr).
Proof.
  unfold executeWithRetry. apply retry_loop_total. lia.
Qed.

(** A negative retry count: the loop body never runs, no request is made
    and [lastError] is thrown as it is, [undefined]. *)
Lemma negative_retries_make_no_attempt (cfg : Config)
    (requestFn : nat -> Settled) (options : RequestOptions) :
  effective_retries cfg options < 0 ->
  executeWithRetry cfg requestFn options = Some (Threw None, []).
Proof.
  intros Hneg. unfold executeWithRetry.
  destruct (Z.to_nat (effective_retries cfg options + 1)); cbn [retry_loop];
    destruct (Z.leb_spec 0 (effective_retries cfg options));
    first [lia | reflexivity].
Qed.

Lemma actions_app (a b : list Event) :
  actions (a ++ b) = (actions a ++ actions b)%list.
Proof. apply filter_app. Qed.

Lemma sleeps_actions (tr : list Event) : sleeps (actions tr) = sleeps tr.
Proof.
  unfold actions.
  induction tr as [|[a|ms|l] tr IH]; cbn; rewrite ?IH; reflexivity.
Qed.

Lemma attempts_actions (tr : list Event) :
  attempts (actions tr) = attempts tr.
Proof.
  unfold attempts, actions. f_equal. f_equal.
  induction tr as [|[a|ms|l] tr IH]; cbn; rewrite ?IH; reflexivity.
Qed.

Lemma sleeps_backoff_schedule (n : nat) :
  forall attempt : Z,
    sleeps (backoff_schedule n attempt)
    = map (fun a => retry_delay (attempt + Z.of_nat a)) (seq 0 n).
Proof.
  induction n as [|n IH]; intros attempt; [reflexivity|].
  cbn [backoff_schedule sleeps seq map].
  rewrite IH, <- seq_shift, map_map. f_equal.
  - f_equal. lia.
  - apply map_ext. intros a. f_equal. lia.
Qed.

Lemma attempts_backoff_schedule (n : nat) :
  forall attempt : Z,
    attempts (backoff_schedule n attempt) = Z.of_nat n + 1.
Proof.
  unfold attempts.
  induction n as [|n IH]; intros attempt; [reflexivity|].
  cbn [backoff_schedule filter is_request List.length].
  specialize (IH (attempt + 1)). lia.
Qed.

(** A request that is rejected with a non-terminal error on each of its
    [n + 1] remaining attempts follows the back-off schedule and throws
    the error of the last attempt. *)
Lemma retry_loop_exhausts (cfg : Config) (requestFn : nat -> Settled)
    (maxRetries : Z) (err_at : nat -> AISpineError) (n : nat) :
  forall (fuel : nat) (attempt : Z) (calls : nat)
         (last : option AISpineError),
    maxRetries = attempt + Z.of_nat n ->
    (n < fuel)%nat ->
    (forall i, (i <= n)%nat ->
       requestFn (calls + i)%nat = Rejected (RejectedWith (err_at (calls + i)%nat))
       /\ is_terminal_status (status (err_at (calls + i)%nat)) = false) ->
    exists tr,
      retry_loop fuel cfg requestFn maxRetries attempt calls last
      = Some (Threw (Some (err_at (calls + n)%nat)), tr)
      /\ actions tr = backoff_schedule n attempt.
Proof.
  induction n as [|n IH]; intros fuel attempt calls last Hmax Hfuel Hall.
  - destruct fuel as [|fuel]; [lia|]. cbn [retry_loop].
    destruct (Z.leb_spec attempt maxRetries); [|lia].
    destruct (Hall 0%nat) as [Hreq Hterm]; [lia|].
    rewrite Nat.add_0_r in *. rewrite Hreq, Hterm.
    destruct (Z.eqb_spec attempt maxRetries); [|lia].
    eexists; split; reflexivity.
  - destruct fuel as [|fuel]; [lia|]. cbn [retry_loop].
    destruct (Z.leb_spec attempt maxRetries); [|lia].
    destruct (Hall 0%nat) as [Hreq Hterm]; [lia|].
    rewrite Nat.add_0_r in Hreq, Hterm. rewrite Hreq, Hterm.
    destruct (Z.eqb_spec attempt maxRetries); [lia|].
    destruct (IH fuel (attempt + 1) (S calls) (Some (err_at calls)))
      as (tr & Hloop & Hact); [lia | lia | |].
    + intros i Hi. replace (S calls + i)%nat with (calls + S i)%nat by lia.
      apply Hall. lia.
    + rewrite Hloop. replace (S calls + n)%nat with (calls + S n)%nat by lia.
      eexists; split; [reflexivity|].
      cbn [backoff_schedule].
      change (actions (EvRequest attempt :: EvSleep (retry_delay attempt)
                       :: ?l ++ tr))
        with (EvRequest attempt :: EvSleep (retry_delay attempt)
              :: actions (l ++ tr)).
      rewrite actions_app, Hact.
      destruct (debug cfg); reflexivity.
Qed.

(** What a failure with a 5xx response of the table is turned into. *)
Lemma handleError_server (cfg : Config) (e : AxiosError)
    (r : ErrorResponse) :
  ax_response e = Some r ->
  In (err_status r) [500; 502; 503; 504] ->
  kind_of (handleError cfg e) = server_kind
  /\ name (handleError cfg e) = "ServerError"
  /\ status (handleError cfg e) = Some (err_status r)
  /\ is_terminal_status (status (handleError cfg e)) = false.
Proof.
  intros Hr Hin. unfold handleError. rewrite Hr.
  destruct r as [s d]; cbn [err_status err_data] in *.
  cbn [In] in Hin.
  destruct Hin as [<-|[<-|[<-|[<-|[]]]]]; repeat split.
Qed.

(** What a failure with a 400, 401, 403 or 404 response is turned into. *)
Lemma handleError_terminal (cfg : Config) (e : AxiosError)
    (r : ErrorResponse) :
  ax_response e = Some r ->
  In (err_status r) [400; 401; 403; 404] ->
  kind_of (handleError cfg e) = spec_kind_of_status (err_status r)
  /\ status (handleError cfg e) = Some (err_status r)
  /\ is_terminal_status (status (handleError cfg e)) = true.
Proof.
  intros Hr Hin. unfold handleError. rewrite Hr.
  destruct r as [s d]; cbn [err_status err_data] in *.
  cbn [In] in Hin.
  destruct Hin as [<-|[<-|[<-|[<-|[]]]]]; repeat split.
Qed.

(** C1.  A request whose every attempt fails with an HTTP 500, 502, 503
    or 504 response is attempted exactly [maxRetries + 1] times, with a
    sleep of min(1000 * 2^attempt, 10000) ms between consecutive attempts
    (1000, 2000, 4000, 8000, 10000, ...), and then throws a [ServerError]
    (kind server) carrying the status of the last response. *)
Theorem server_errors_exhaust_retries (cfg : Config)
    (options : RequestOptions) (transport : nat -> TransportResult)
    (st : nat -> Z) :
  0 <= effective_retries cfg options ->
  (forall i, (i <= Z.to_nat (effective_retries cfg options))%nat ->
     In (st i) [500; 502; 503; 504]
     /\ exists e r, transport i = Failed e /\ ax_response e = Some r
                    /\ err_status r = st i) ->
  exists e tr,
    request cfg transport options = Some (Threw (Some e), tr)
    /\ attempts tr = effective_retries cfg options + 1
    /\ sleeps tr = spec_delays (Z.to_nat (effective_retries cfg options))
    /\ actions tr
       = backoff_schedule (Z.to_nat (effective_retries cfg options)) 0
    /\ kind_of e = server_kind
    /\ name e = "ServerError"
    /\ status e = Some (st (Z.to_nat (effective_retries cfg options))).
Proof.
  intros Hnonneg Hall.
  set (m := effective_retries cfg options) in *.
  set (err_at := fun i : nat =>
         match transport i with
         | Failed e => handleError cfg e
         | _ => new_NetworkError None None
         end).
  assert (Hfacts : forall i, (i <= Z.to_nat m)%nat ->
            http cfg transport i = Rejected (RejectedWith (err_at i))
            /\ kind_of (err_at i) = server_kind
            /\ name (err_at i) = "ServerError"
            /\ status (err_at i) = Some (st i)
            /\ is_terminal_status (status (err_at i)) = false).
  { intros i Hi. destruct (Hall i Hi) as (Hst & e & r & Ht & Hr & Hs).
    unfold http, err_at. rewrite Ht. rewrite <- Hs in Hst.
    destruct (handleError_server cfg e r Hr Hst) as (Hk & Hn & Hstat & Hterm).
    rewrite <- Hs. auto. }
  destruct (retry_loop_exhausts cfg (http cfg transport) m err_at
              (Z.to_nat m) (Z.to_nat (m + 1)) 0 0%nat None)
    as (tr & Hloop & Hact); [lia | lia | |].
  { intros i Hi. cbn [Nat.add]. destruct (Hfacts i Hi) as (H1 & _ & _ & _ & H5).
    auto. }
  cbn [Nat.add] in Hloop.
  destruct (Hfacts (Z.to_nat m)) as (_ & Hk & Hn & Hs & _); [lia|].
  exists (err_at (Z.to_nat m)), tr.
  split; [exact Hloop|].
  split; [rewrite <- attempts_actions, Hact, attempts_backoff_schedule; lia|].
  split; [rewrite <- sleeps_actions, Hact, sleeps_backoff_schedule;
          reflexivity|].
  auto.
Qed.

Lemma server_errors_exhaust_retries_witness :
  exists e tr,
    request default_client always_503 no_options
    = Some (Threw (Some e), tr)
    /\ attempts tr = 4
    /\ sleeps tr = [1000; 2000; 4000]
    /\ actions tr
       = [EvRequest 0; EvSleep 1000; EvRequest 1; EvSleep 2000;
          EvRequest 2; EvSleep 4000; EvRequest 3]
    /\ kind_of e = server_kind
    /\ name e = "ServerError"
    /\ status e = Some 503.
Proof.
  apply (server_errors_exhaust_retries default_client no_options
           always_503 (fun _ => 503)).
  - vm_compute. discriminate.
  - intros i _. split.
    + simpl. auto.
    + eexists. eexists. repeat split.
Defined.

(** C2.  A request whose first attempt fails with HTTP 400, 401, 403 or
    404 is attempted exactly once: the trace is that single request, with
    no sleep and no retry whatever the retry budget, and the error thrown
    is of kind validation, authentication, authorization or not-found
    respectively, carrying that status. *)
Theorem terminal_statuses_are_not_retried (cfg : Config)
    (options : RequestOptions) (transport : nat -> TransportResult)
    (e : AxiosError) (r : ErrorResponse) :
  0 <= effective_retries cfg options ->
  transport 0%nat = Failed e ->
  ax_response e = Some r ->
  In (err_status r) [400; 401; 403; 404] ->
  exists err,
    request cfg transport options = Some (Threw (Some err), [EvRequest 0])
    /\ attempts [EvRequest 0] = 1
    /\ sleeps [EvRequest 0] = []
    /\ status err = Some (err_status r)
    /\ (err_status r = 400 -> kind_of err = validation_kind)
    /\ (err_status r = 401 -> kind_of err = authentication_kind)
    /\ (err_status r = 403 -> kind_of err = authorization_kind)
    /\ (err_status r = 404 -> kind_of err = not_found_kind).
Proof.
  intros Hnonneg Ht Hr Hin.
  destruct (handleError_terminal cfg e r Hr Hin) as (Hk & Hs & Hterm).
  exists (handleError cfg e).
  split.
  - unfold request, executeWithRetry.
    set (m := effective_retries cfg options) in *.
    replace (Z.to_nat (m + 1)) with (S (Z.to_nat m)) by lia.
    cbn [retry_loop].
    destruct (Z.leb_spec 0 m); [|lia].
    unfold http. rewrite Ht, Hterm. reflexivity.
  - repeat split; try assumption;
      intros Heq; rewrite Hk, Heq; reflexivity.
Qed.

Lemma terminal_statuses_are_not_retried_witness :
  exists err,
    request default_client always_404 no_options
    = Some (Threw (Some err), [EvRequest 0])
    /\ attempts [EvRequest 0] = 1
    /\ sleeps [EvRequest 0] = []
    /\ status err = Some 404
    /\ (404 = 400 -> kind_of err = validation_kind)
    /\ (404 = 401 -> kind_of err = authentication_kind)
    /\ (404 = 403 -> kind_of err = authorization_kind)
    /\ (404 = 404 -> kind_of err = not_found_kind).
Proof.
  apply (terminal_statuses_are_not_retried default_client no_options
           always_404
           {| ax_code := Some "ERR_BAD_REQUEST";
              ax_message := "Request failed with status code 404";
              ax_response :=
                Some {| err_status := 404; err_data := None |} |}
           {| err_status := 404; err_data := None |}).
  - vm_compute. discriminate.
  - reflexivity.
  - reflexivity.
  - simpl. auto.
Defined.

(** C9.  A falsy override given to the constructor is replaced by the
    default: [retries: 0] becomes 3 and [timeout: 0] becomes 30000, so a
    request under such a client still has three retries; a per-call
    [retries: 0] is kept as it is, and the request is then attempted
    exactly once, without sleep, whatever the request does. *)
Theorem falsy_overrides (k b : option string) (t r : option Z)
    (d : option bool) (cfg : Config) (requestFn : nat -> Settled)
    (ot : option Z) (oh : option (list (string * string))) :
  retries (constructor (inl {| in_apiKey := k; in_baseURL := b;
                               in_timeout := t; in_retries := Some 0;
                               in_debug := d |})) = 3
  /\ timeout (constructor (inl {| in_apiKey := k; in_baseURL := b;
                                  in_timeout := Some 0; in_retries := r;
                                  in_debug := d |})) = 30000
  /\ effective_retries
       (constructor (inl {| in_apiKey := k; in_baseURL := b;
                            in_timeout := t; in_retries := Some 0;
                            in_debug := d |})) no_options = 3
  /\ effective_retries cfg {| opt_timeout := ot; opt_retries := Some 0;
                              opt_headers := oh |} = 0
  /\ exists c,
       executeWithRetry cfg requestFn
         {| opt_timeout := ot; opt_retries := Some 0; opt_headers := oh |}
       = Some (c, [EvRequest 0])
       /\ attempts [EvRequest 0] = 1
       /\ sleeps [EvRequest 0] = [].
Proof.
  repeat split.
  unfold executeWithRetry, effective_retries.
  cbn [Js.nullish opt_retries].
  change (Z.to_nat (0 + 1)) with 1%nat.
  cbn [retry_loop Z.leb Z.compare Z.eqb].
  destruct (requestFn 0%nat) as [resp|why].
  - eexists. repeat split.
  - match goal with
    | |- context [is_terminal_status ?s] => destruct (is_terminal_status s)
    end; eexists; repeat split.
Qed.

End ClientFacts.

(** ** Webhook signatures *)

Module SignatureFacts.
Import WebhookSignature Spec.

(** *** Splitting *)

Lemma split_no_sep (sep : ascii) (s : string) :
  has_char sep s = false -> split sep s = [s].
Proof.
  induction s as [|c s IH]; cbn; [reflexivity|].
  intros H. apply orb_false_iff in H as [Hc Hs].
  rewrite Hc, (IH Hs). reflexivity.
Qed.

Lemma split_at_first (sep : ascii) (a b : string) :
  has_char sep a = false ->
  split sep (a ++ String sep b) = a :: split sep b.
Proof.
  induction a as [|c a IH]; cbn.
  - intros _. rewrite Ascii.eqb_refl. reflexivity.
  - intros H. apply orb_false_iff in H as [Hc Ha].
    rewrite Hc, (IH Ha). reflexivity.
Qed.

Lemma has_char_app (c : ascii) (a b : string) :
  has_char c (a ++ b) = has_char c a || has_char c b.
Proof.
  induction a as [|x a IH]; cbn; [reflexivity|].
  rewrite IH, orb_assoc. reflexivity.
Qed.

(** *** Hexadecimal digests *)

Lemma hex_digit_plain (n : Z) :
  Ascii.eqb (Node.hex_digit n) "," = false
  /\ Ascii.eqb (Node.hex_digit n) "=" = false.
Proof.
  unfold Node.hex_digit.
  destruct (n mod 16) as [|p|p]; [split; reflexivity | | split; reflexivity].
  do 4 (try destruct p as [p|p|]); split; reflexivity.
Qed.

Lemma hex_of_bytes_plain (bs : list Z) :
  has_char "," (Node.hex_of_bytes bs) = false
  /\ has_char "=" (Node.hex_of_bytes bs) = false.
Proof.
  induction bs as [|b bs [IHc IHe]]; cbn [Node.hex_of_bytes has_char].
  - split; reflexivity.
  - destruct (hex_digit_plain (b / 16)) as [-> ->].
    destruct (hex_digit_plain b) as [-> ->].
    rewrite IHc, IHe. split; reflexivity.
Qed.

Lemma bytes_eqb_refl (a : list Z) : Node.bytes_eqb a a = true.
Proof.
  induction a as [|x a IH]; cbn; [reflexivity|].
  rewrite Z.eqb_refl, IH. reflexivity.
Qed.

Lemma timingSafeEqual_same (a : list Z) : Node.timingSafeEqual a a = inl true.
Proof.
  unfold Node.timingSafeEqual.
  rewrite Nat.eqb_refl, bytes_eqb_refl. reflexivity.
Qed.

(** *** Digit strings *)

Lemma all_digits_plain (t : string) :
  all_digits t = true ->
  has_char "," t = false /\ has_char "=" t = false.
Proof.
  induction t as [|c t IH]; cbn [all_digits has_char]; [auto|].
  intros H. apply andb_true_iff in H as [Hc Ht].
  destruct (IH Ht) as [-> ->].
  apply andb_true_iff in Hc as [Hlo Hhi].
  rewrite !orb_false_r.
  split; destruct (Ascii.eqb_spec c ","), (Ascii.eqb_spec c "=");
    subst; try reflexivity; cbn in Hlo, Hhi; discriminate.
Qed.

(** *** Parsing the header that [generate] builds *)

Lemma scan_generated (t sig : string) :
  has_char "," t = false -> has_char "=" t = false ->
  has_char "," sig = false -> has_char "=" sig = false ->
  scan_elements (split "," ("t=" ++ t ++ ",v1=" ++ sig)) None []
  = (Some t, [Some sig]).
Proof.
  intros Htc Hte Hsc Hse.
  change ("t=" ++ t ++ ",v1=" ++ sig)
    with (("t=" ++ t) ++ String "," ("v1=" ++ sig)).
  rewrite split_at_first by (cbn; rewrite Htc; reflexivity).
  rewrite split_no_sep by (cbn; rewrite Hsc; reflexivity).
  cbn [scan_elements].
  change ("t=" ++ t) with ("t" ++ String "=" t).
  change ("v1=" ++ sig) with ("v1" ++ String "=" sig).
  rewrite !split_at_first by reflexivity.
  rewrite !split_no_sep by assumption.
  reflexivity.
Qed.

(** The round trip for any timestamp string that survives the header
    format: not empty, without [,] and [=], and not stale (or not a
    number at all). *)
Lemma verify_generate (now : Z) (s t p : string) (tolerance : option Z) :
  t <> EmptyString ->
  has_char "," t = false -> has_char "=" t = false ->
  match parseInt t with
  | Some seconds => now - seconds * 1000 <= Js.nullish tolerance 300 * 1000
  | None => True
  end ->
  verify now (generate {| secret := s; timestamp := t; payload := p |})
    p s tolerance
  = {| valid := true; error := None |}.
Proof.
  intros Hne Htc Hte Hfresh.
  unfold verify, generate.
  cbn [secret timestamp payload].
  destruct (hex_of_bytes_plain
              (Node.hmac_sha256 (Node.bytes_of_string s)
                 (Node.bytes_of_string (t ++ "." ++ p)))) as [Hsc Hse].
  unfold Node.createHmac_sha256_hex at 1.
  rewrite (scan_generated t _ Htc Hte Hsc Hse).
  destruct t as [|c t]; [congruence|].
  cbn [Js.falsy_string Js.nullish].
  destruct (parseInt (String c t)) as [seconds|].
  - destruct (Z.gtb_spec (now - seconds * 1000)
                (Js.nullish tolerance 300 * 1000)); [lia|].
    cbn [some_matches]. unfold Node.createHmac_sha256_hex.
    rewrite timingSafeEqual_same. reflexivity.
  - cbn [some_matches]. unfold Node.createHmac_sha256_hex.
    rewrite timingSafeEqual_same. reflexivity.
Qed.

(** C5.  Round trip: for every secret, every timestamp in Unix seconds
    and every payload, the header built by [generate] -- the string
    "t=<t>,v1=<hex HMAC-SHA256 of t.payload under the secret>" -- verifies
    against the same payload and secret as [{valid: true}] whenever now is
    within the tolerance window of the timestamp. *)
Theorem signature_round_trip (now : Z) (s t p : string)
    (tolerance : option Z) (seconds : Z) :
  is_unix_seconds t = true ->
  parseInt t = Some seconds ->
  ~ outside_window now seconds (Js.nullish tolerance 300) ->
  generate {| secret := s; timestamp := t; payload := p |}
  = "t=" ++ t ++ ",v1="
    ++ Node.hex_of_bytes
         (Node.hmac_sha256 (Node.bytes_of_string s)
            (Node.bytes_of_string (t ++ "." ++ p)))
  /\ verify now (generate {| secret := s; timestamp := t; payload := p |})
       p s tolerance
     = {| valid := true; error := None |}.
Proof.
  intros Hunix Hparse Hwin. split; [reflexivity|].
  assert (Hdigits : all_digits t = true /\ t <> EmptyString).
  { destruct t; [discriminate|]. split; [exact Hunix | discriminate]. }
  destruct Hdigits as [Hdigits Hne].
  destruct (all_digits_plain t Hdigits) as [Htc Hte].
  apply verify_generate; try assumption.
  rewrite Hparse. unfold outside_window in Hwin. lia.
Qed.

Lemma signature_round_trip_witness :
  generate {| secret := "whsec_test_secret_key_12345";
              timestamp := "1700000000"; payload := "{test:1}" |}
  = "t=" ++ "1700000000" ++ ",v1="
    ++ Node.hex_of_bytes
         (Node.hmac_sha256
            (Node.bytes_of_string "whsec_test_secret_key_12345")
            (Node.bytes_of_string ("1700000000" ++ "." ++ "{test:1}")))
  /\ verify 1700000100000
       (generate {| secret := "whsec_test_secret_key_12345";
                    timestamp := "1700000000"; payload := "{test:1}" |})
       "{test:1}" "whsec_test_secret_key_12345" (Some 300)
     = {| valid := true; error := None |}.
Proof.
  apply (signature_round_trip 1700000100000 "whsec_test_secret_key_12345"
           "1700000000" "{test:1}" (Some 300) 1700000000).
  - reflexivity.
  - reflexivity.
  - unfold outside_window. simpl. lia.
Defined.

(** *** The tolerance window *)

Lemma verify_timestamp_check (now : Z) (header payload secret : string)
    (tolerance : option Z) (t : string) (seconds : Z) :
  header_timestamp header = Some t ->
  t <> EmptyString ->
  parseInt t = Some seconds ->
  verify now header payload secret tolerance
  = if now - seconds * 1000 >? Js.nullish tolerance 300 * 1000
    then timestamp_rejection
    else match some_matches
                 (snd (scan_elements (split "," header) None []))
                 (Node.createHmac_sha256_hex secret (t ++ "." ++ payload))
         with
         | inl isValid => {| valid := isValid; error := None |}
         | inr msg =>
             {| valid := false;
                error := Some ("Signature verification failed: " ++ msg) |}
         end.
Proof.
  unfold header_timestamp, verify. intros Ht Hne Hparse.
  destruct (scan_elements (split "," header) None []) as [ts sigs].
  cbn [fst snd] in *. subst ts.
  destruct t as [|c t]; [congruence|].
  cbn [Js.falsy_string Js.nullish]. rewrite Hparse. reflexivity.
Qed.

(** C4, as the code has it.  For a header with a numeric timestamp,
    [verify] answers "Timestamp outside tolerance window" exactly when the
    timestamp is older than the tolerance, [now_ms - timestamp_ms >
    tolerance * 1000]: a timestamp 400 s old fails under a 300 s tolerance;
    a timestamp inside the window, and also one any distance in the
    future, is not rejected on timestamp grounds. *)
Theorem stale_timestamps_are_rejected (now : Z)
    (header payload secret : string) (tolerance : option Z) (t : string)
    (seconds : Z) :
  header_timestamp header = Some t ->
  t <> EmptyString ->
  parseInt t = Some seconds ->
  (stale now seconds (Js.nullish tolerance 300) ->
   verify now header payload secret tolerance = timestamp_rejection)
  /\ (~ stale now seconds (Js.nullish tolerance 300) ->
      error (verify now header payload secret tolerance)
      <> Some "Timestamp outside tolerance window").
Proof.
  intros Ht Hne Hparse.
  rewrite (verify_timestamp_check now header payload secret tolerance t
             seconds Ht Hne Hparse).
  unfold stale.
  destruct (Z.gtb_spec (now - seconds * 1000)
              (Js.nullish tolerance 300 * 1000)); split; intros Hs;
    try lia; try reflexivity.
  destruct (some_matches _ _) as [b|msg]; cbn; discriminate.
Qed.

(** A header signed 400 s before now. *)
Lemma stale_timestamps_are_rejected_witness :
  (stale 1700000400000 1700000000 300 ->
   verify 1700000400000
     (generate {| secret := "whsec"; timestamp := "1700000000";
                  payload := "hello" |})
     "hello" "whsec" (Some 300) = timestamp_rejection)
  /\ (~ stale 1700000400000 1700000000 300 ->
      error (verify 1700000400000
               (generate {| secret := "whsec"; timestamp := "1700000000";
                            payload := "hello" |})
               "hello" "whsec" (Some 300))
      <> Some "Timestamp outside tolerance window").
Proof.
  apply (stale_timestamps_are_rejected 1700000400000
           (generate {| secret := "whsec"; timestamp := "1700000000";
                        payload := "hello" |})
           "hello" "whsec" (Some 300) "1700000000" 1700000000).
  - vm_compute. reflexivity.
  - discriminate.
  - reflexivity.
Defined.

(** C4, as stated, fails on a timestamp from the future: 1000 s ahead of
    now is outside a 300 s window, and the signature is accepted. *)
Lemma future_timestamp_is_accepted :
  outside_window 1700000000000 1700001000 300
  /\ header_timestamp
       (generate {| secret := "whsec"; timestamp := "1700001000";
                    payload := "hello" |}) = Some "1700001000"
  /\ verify 1700000000000
       (generate {| secret := "whsec"; timestamp := "1700001000";
                    payload := "hello" |})
       "hello" "whsec" (Some 300)
     = {| valid := true; error := None |}
  /\ verify 1700000000000
       (generate {| secret := "whsec"; timestamp := "1700001000";
                    payload := "hello" |})
       "hello" "whsec" (Some 300)
     <> timestamp_rejection.
Proof.
  split; [unfold outside_window; simpl; lia|].
  split; [vm_compute; reflexivity|].
  split; [vm_compute; reflexivity|].
  vm_compute. discriminate.
Qed.

End SignatureFacts.

(** ** The handler registry and dispatch *)

Module HandlerFacts.
Import WebhookEventHandler Scenarios.

(** *** The registry *)

Lemma type_eqb_eq (a b : WebhookEventType) : type_eqb a b = true <-> a = b.
Proof. unfold type_eqb. destruct (type_eq_dec a b); split; congruence. Qed.

Lemma type_eqb_refl (a : WebhookEventType) : type_eqb a a = true.
Proof. apply type_eqb_eq. reflexivity. Qed.

Lemma map_get_In (t : WebhookEventType) (m : Registry) (s : HandlerSet) :
  map_get t m = Some s -> In (t, s) m.
Proof.
  induction m as [|[k s0] m IH]; cbn; [discriminate|].
  destruct (type_eqb k t) eqn:E.
  - apply type_eqb_eq in E. intros [= <-]. subst. auto.
  - auto.
Qed.

Lemma map_get_None (t : WebhookEventType) (m : Registry) :
  map_get t m = None <-> ~ In t (map fst m).
Proof.
  induction m as [|[k s0] m IH]; cbn; [tauto|].
  destruct (type_eqb k t) eqn:E.
  - apply type_eqb_eq in E. split; [discriminate | tauto].
  - assert (k <> t) by (intros ->; rewrite type_eqb_refl in E; discriminate).
    tauto.
Qed.

Lemma map_get_set_same (t : WebhookEventType) (s : HandlerSet)
    (m : Registry) :
  map_get t (map_set t s m) = Some s.
Proof.
  induction m as [|[k s0] m IH]; cbn.
  - rewrite type_eqb_refl. reflexivity.
  - destruct (type_eqb k t) eqn:E; cbn; rewrite E; auto.
Qed.

Lemma map_set_Forall (P : WebhookEventType * HandlerSet -> Prop)
    (t : WebhookEventType) (s : HandlerSet) (m : Registry) :
  P (t, s) -> Forall P m -> Forall P (map_set t s m).
Proof.
  intros Pt. induction 1 as [|[k s0] m Hx Hm IH]; cbn.
  - auto.
  - destruct (type_eqb k t) eqn:E; constructor; auto.
    apply type_eqb_eq in E. subst k. exact Pt.
Qed.

Lemma map_delete_Forall (P : WebhookEventType * HandlerSet -> Prop)
    (t : WebhookEventType) (m : Registry) :
  Forall P m -> Forall P (map_delete t m).
Proof.
  unfold map_delete. rewrite !Forall_forall. intros H x Hx.
  apply filter_In in Hx. apply H, Hx.
Qed.

Lemma map_get_delete (t : WebhookEventType) (m : Registry) :
  map_get t (map_delete t m) = None.
Proof.
  apply map_get_None. unfold map_delete. intros Hin.
  apply in_map_iff in Hin as ([k s] & Hk & Hin). cbn in Hk. subst k.
  apply filter_In in Hin as [_ Hf]. cbn in Hf.
  rewrite type_eqb_refl in Hf. discriminate.
Qed.

Lemma set_has_In (h : HandlerRef) (s : HandlerSet) :
  set_has h s = true <-> In h s.
Proof.
  unfold set_has. rewrite existsb_exists. split.
  - intros (x & Hx & E). apply Nat.eqb_eq in E. subst. exact Hx.
  - intros Hin. exists h. split; [exact Hin | apply Nat.eqb_refl].
Qed.

Lemma set_add_ok (h : HandlerRef) (s : HandlerSet) :
  NoDup s -> set_add h s <> [] /\ NoDup (set_add h s) /\ In h (set_add h s).
Proof.
  intros Hnd. unfold set_add. destruct (set_has h s) eqn:E.
  - apply set_has_In in E. repeat split; auto.
    intros ->. destruct E.
  - assert (~ In h s) by (rewrite <- set_has_In, E; discriminate).
    repeat split.
    + destruct s; discriminate.
    + apply NoDup_app; auto.
      * repeat constructor. intros [].
      * intros a Ha [<-|[]]. auto.
    + apply in_or_app. right. left. reflexivity.
Qed.

Lemma set_delete_ok (h : HandlerRef) (s : HandlerSet) :
  NoDup s -> NoDup (set_delete h s) /\ ~ In h (set_delete h s).
Proof.
  intros Hnd. unfold set_delete. split.
  - apply NoDup_filter, Hnd.
  - intros Hin. apply filter_In in Hin as [_ Hf].
    rewrite Nat.eqb_refl in Hf. discriminate.
Qed.

Lemma well_formed_get (t : WebhookEventType) (m : Registry)
    (s : HandlerSet) :
  well_formed m -> map_get t m = Some s -> s <> [] /\ NoDup s.
Proof.
  unfold well_formed. rewrite Forall_forall. intros Hwf Hget.
  apply (Hwf (t, s)), map_get_In, Hget.
Qed.

Lemma on_well_formed (t : WebhookEventType) (h : HandlerRef)
    (m : Registry) :
  well_formed m -> well_formed (on t h m).
Proof.
  intros Hwf. unfold on, map_has.
  destruct (map_get t m) as [s|] eqn:Hget; cbn [negb].
  - rewrite Hget.
    destruct (well_formed_get t m s Hwf Hget) as [_ Hnd].
    destruct (set_add_ok h s Hnd) as (Hne & Hnd' & _).
    apply map_set_Forall; cbn; auto.
  - rewrite map_get_set_same.
    assert (E : map_set t (set_add h []) (map_set t [] m)
                = map_set t (set_add h []) m).
    { clear Hwf. induction m as [|[k s0] m IH]; cbn [map_set].
      - rewrite type_eqb_refl. reflexivity.
      - cbn [map_get] in Hget.
        destruct (type_eqb k t) eqn:Ek; [discriminate|].
        cbn [map_set]. rewrite Ek, (IH Hget). reflexivity. }
    rewrite E. apply map_set_Forall; cbn; auto.
    split; [discriminate | repeat constructor; intros []].
Qed.

Lemma off_well_formed (t : WebhookEventType) (h : HandlerRef)
    (m : Registry) :
  well_formed m -> well_formed (off t h m).
Proof.
  intros Hwf. unfold off.
  destruct (map_get t m) as [s|] eqn:Hget; [|exact Hwf].
  destruct (well_formed_get t m s Hwf Hget) as [_ Hnd].
  destruct (set_delete_ok h s Hnd) as [Hnd' _].
  destruct (Nat.eqb_spec (List.length (set_delete h s)) 0) as [Hlen|Hlen].
  - unfold well_formed, map_delete in *. rewrite Forall_forall in *.
    intros [k s0] Hin. apply filter_In in Hin as [Hin Hk]. cbn in Hk.
    assert (Hkt : k <> t)
      by (intros ->; rewrite type_eqb_refl in Hk; discriminate).
    clear Hk Hget. induction m as [|[k' s'] m IH]; cbn in Hin.
    + destruct Hin as [[= <- _]|[]]. congruence.
    + destruct (type_eqb k' t) eqn:E.
      * apply type_eqb_eq in E. subst k'.
        destruct Hin as [[= <- _]|Hin]; [congruence|].
        apply Hwf. right. exact Hin.
      * destruct Hin as [[= <- <-]|Hin].
        -- apply Hwf. left. reflexivity.
        -- apply IH; [|exact Hin]. intros x Hx. apply Hwf. right. exact Hx.
  - apply map_set_Forall; [|exact Hwf]. cbn. split; [|exact Hnd'].
    intros E. rewrite E in Hlen. cbn in Hlen. congruence.
Qed.

Lemma run_well_formed (ops : list Op) :
  forall m, well_formed m -> well_formed (fold_left apply_op ops m).
Proof.
  induction ops as [|op ops IH]; intros m Hwf; cbn; [exact Hwf|].
  apply IH. destruct op as [t h|t h|]; cbn.
  - apply on_well_formed, Hwf.
  - apply off_well_formed, Hwf.
  - constructor.
Qed.

Lemma run_ops_well_formed (ops : list Op) : well_formed (run_ops ops).
Proof. apply run_well_formed. constructor. Qed.

(** What [off] leaves under the event type: nothing, or a set that is not
    empty and no longer has the handler. *)
Lemma off_result (t : WebhookEventType) (h : HandlerRef) (m : Registry) :
  well_formed m ->
  match map_get t (off t h m) with
  | Some s' =>
      ~ In h s' /\ s' <> [] /\ In t (getRegisteredEvents (off t h m))
  | None => ~ In t (getRegisteredEvents (off t h m))
  end.
Proof.
  intros Hwf.
  destruct (map_get t (off t h m)) as [s'|] eqn:Hafter;
    [|apply map_get_None, Hafter].
  assert (Hlisted : In t (getRegisteredEvents (off t h m))).
  { apply map_get_In in Hafter.
    apply in_map_iff. exists (t, s'). split; [reflexivity | exact Hafter]. }
  destruct (well_formed_get t _ s' (off_well_formed t h m Hwf) Hafter)
    as [Hne _].
  repeat split; auto.
  unfold off in Hafter.
  destruct (map_get t m) as [s|] eqn:Hget.
  - destruct (well_formed_get t m s Hwf Hget) as [_ Hnd].
    destruct (set_delete_ok h s Hnd) as [_ Hnot].
    destruct (List.length (set_delete h s) =? 0)%nat.
    + rewrite map_get_delete in Hafter. discriminate.
    + rewrite map_get_set_same in Hafter. injection Hafter as <-.
      exact Hnot.
  - congruence.
Qed.

(** C8.  After any run of [on], [off] and [removeAllHandlers] from the
    empty registry, every event type [getRegisteredEvents] lists has at
    least one handler; and a further [off] leaves under its event type
    either no entry at all (the type is no longer listed) or a set that is
    not empty and does not contain the removed handler. *)
Theorem registered_events_have_handlers (ops : list Op)
    (t : WebhookEventType) (h : HandlerRef) :
  In t (getRegisteredEvents (run_ops ops)) ->
  (exists s h', map_get t (run_ops ops) = Some s /\ In h' s)
  /\ match map_get t (off t h (run_ops ops)) with
     | Some s' =>
         ~ In h s' /\ s' <> []
         /\ In t (getRegisteredEvents (off t h (run_ops ops)))
     | None => ~ In t (getRegisteredEvents (off t h (run_ops ops)))
     end.
Proof.
  intros Hin. pose proof (run_ops_well_formed ops) as Hwf.
  split; [|apply off_result, Hwf].
  destruct (map_get t (run_ops ops)) as [s|] eqn:Hget.
  - destruct (well_formed_get t _ s Hwf Hget) as [Hne _].
    destruct s as [|h' s]; [congruence|].
    exists (h' :: s), h'. split; [reflexivity | left; reflexivity].
  - apply map_get_None in Hget. contradiction.
Qed.

Lemma registered_events_have_handlers_witness :
  (exists s h',
      map_get wildcard
        (run_ops [On execution_completed 1%nat; On wildcard 2%nat;
                  On wildcard 3%nat; Off execution_completed 1%nat])
      = Some s /\ In h' s)
  /\ match map_get wildcard
             (off wildcard 2%nat
                (run_ops [On execution_completed 1%nat; On wildcard 2%nat;
                          On wildcard 3%nat; Off execution_completed 1%nat]))
     with
     | Some s' =>
         ~ In 2%nat s' /\ s' <> []
         /\ In wildcard
              (getRegisteredEvents
                 (off wildcard 2%nat
                    (run_ops [On execution_completed 1%nat;
                              On wildcard 2%nat; On wildcard 3%nat;
                              Off execution_completed 1%nat])))
     | None =>
         ~ In wildcard
             (getRegisteredEvents
                (off wildcard 2%nat
                   (run_ops [On execution_completed 1%nat;
                             On wildcard 2%nat; On wildcard 3%nat;
                             Off execution_completed 1%nat])))
     end.
Proof.
  apply (registered_events_have_handlers
           [On execution_completed 1%nat; On wildcard 2%nat;
            On wildcard 3%nat; Off execution_completed 1%nat]
           wildcard 2%nat).
  simpl. auto.
Defined.

(** *** Dispatch *)

Lemma invocations_app (h : HandlerRef) (a b : list Event) :
  invocations h (a ++ b) = (invocations h a + invocations h b)%nat.
Proof. unfold invocations. rewrite filter_app, length_app. reflexivity. Qed.

Lemma invocations_settle (h : HandlerRef) (e : WebhookEvent) (g : Group)
    (pending : list (HandlerRef * PromiseEnd)) :
  invocations h (settle e g pending) = 0%nat.
Proof.
  induction pending as [|[x [|err|]] pending IH]; cbn; auto.
Qed.

Lemma invocations_launched (h : HandlerRef) (g : Group)
    (hs : list HandlerRef) :
  NoDup hs ->
  invocations h (map (EvInvoke g) hs) = if set_has h hs then 1%nat else 0%nat.
Proof.
  unfold invocations, set_has.
  induction 1 as [|x hs Hx Hnd IH]; cbn [map filter existsb]; [reflexivity|].
  destruct (Nat.eqb_spec h x) as [->|Hne]; cbn [orb List.length].
  - rewrite IH.
    destruct (existsb (Nat.eqb x) hs) eqn:E; [|reflexivity].
    apply set_has_In in E. contradiction.
  - exact IH.
Qed.

Lemma settle_no_invoke (e : WebhookEvent) (g : Group)
    (pending : list (HandlerRef * PromiseEnd)) :
  Forall (fun ev => is_invoke ev = false) (settle e g pending).
Proof.
  induction pending as [|[x [|err|]] pending IH]; cbn; auto.
Qed.

Lemma settle_complete (e : WebhookEvent) (g : Group) (h : HandlerRef)
    (p : PromiseEnd) (pending : list (HandlerRef * PromiseEnd)) :
  In (h, p) pending -> p <> NeverSettles ->
  In (EvSettled g h) (settle e g pending).
Proof.
  intros Hin Hp.
  induction pending as [|[x q] pending IH]; [destruct Hin|].
  destruct Hin as [[= -> ->]|Hin].
  - destruct p; cbn; auto. congruence.
  - specialize (IH Hin). destruct q; cbn; auto.
Qed.

(** What [launch] produces: invocations only, of the group; and, when no
    handler throws, one pending promise per handler, in order. *)
Lemma launch_shape (run : Behaviour) (e : WebhookEvent) (g : Group)
    (hs : list HandlerRef) :
  forall called,
    Forall (fun ev => is_invoke_in g ev = true)
      (fst (fst (fst (launch run e g hs called))))
    /\ (snd (fst (launch run e g hs called)) = None ->
        map fst (snd (fst (fst (launch run e g hs called)))) = hs).
Proof.
  induction hs as [|h hs IH]; intros called; cbn [launch].
  - cbn. auto.
  - specialize (IH (called ++ [h])%list).
    destruct (launch run e g hs (called ++ [h])) as [[[evs pending] thrown] c].
    cbn [fst snd] in IH. destruct IH as [IH1 IH2].
    destruct (run h (calls_of h called) e) as [|err|p]; cbn [fst snd].
    + split; [constructor; [destruct g; reflexivity | exact IH1]|].
      intros Hth. cbn. f_equal. auto.
    + split; [repeat constructor; destruct g; reflexivity | discriminate].
    + split; [constructor; [destruct g; reflexivity | exact IH1]|].
      intros Hth. cbn. f_equal. auto.
Qed.

(** With handlers that do not throw, [launch] calls every handler. *)
Lemma launch_no_throw (run : Behaviour) (e : WebhookEvent) (g : Group)
    (hs : list HandlerRef) :
  no_sync_throw run e ->
  forall called,
    exists pending,
      launch run e g hs called
      = (map (EvInvoke g) hs, pending, None, (called ++ hs)%list)
      /\ map fst pending = hs
      /\ (all_settle run e -> existsb never_settles pending = false).
Proof.
  intros Hno. induction hs as [|h hs IH]; intros called; cbn [launch].
  - exists []. rewrite app_nil_r. auto.
  - destruct (IH (called ++ [h])%list) as (pending & -> & Hfst & Hsettle).
    rewrite <- app_assoc. cbn [app].
    pose proof (Hno h (calls_of h called)) as Hh.
    destruct (run h (calls_of h called) e) as [|err|p] eqn:E.
    + exists ((h, Resolves) :: pending). cbn. rewrite Hfst. auto.
    + destruct (Hh err). reflexivity.
    + exists ((h, p) :: pending). cbn. rewrite Hfst.
      repeat split. intros Hall. rewrite (Hsettle Hall).
      destruct p; try reflexivity.
      destruct (Hall h (calls_of h called)). exact E.
Qed.

Lemma never_settles_perm (l l' : list (HandlerRef * PromiseEnd)) :
  Permutation l' l ->
  existsb never_settles l = false -> existsb never_settles l' = false.
Proof.
  intros Hperm Hl.
  destruct (existsb never_settles l') eqn:E; [|reflexivity].
  apply existsb_exists in E as (x & Hx & Hn).
  assert (existsb never_settles l = true); [|congruence].
  apply existsb_exists. exists x. split; [|exact Hn].
  eapply Permutation_in; eauto.
Qed.

(** The trace of [emit] with handlers that return and settle: both groups
    run in full, one after the other, and [emit] resolves. *)
Lemma emit_well_behaved
    (sched : list (HandlerRef * PromiseEnd) -> list (HandlerRef * PromiseEnd))
    (run : Behaviour) (handlers : Registry) (e : WebhookEvent) :
  no_sync_throw run e -> all_settle run e ->
  exists p1 p2,
    emit sched run handlers e
    = (EmitResolved,
       (map (EvInvoke SpecificGroup)
            (Js.nullish (map_get (event e) handlers) [])
        ++ settle e SpecificGroup p1
        ++ map (EvInvoke WildcardGroup)
             (Js.nullish (map_get wildcard handlers) [])
        ++ settle e WildcardGroup p2)%list).
Proof.
  intros Hno Hall. unfold emit, run_group.
  destruct (map_get (event e) handlers) as [s1|];
    destruct (map_get wildcard handlers) as [s2|]; cbn [Js.nullish].
  - destruct (launch_no_throw run e SpecificGroup s1 Hno [])
      as (p1 & -> & _ & Hs1). rewrite (Hs1 Hall).
    destruct (launch_no_throw run e WildcardGroup s2 Hno ([] ++ s1))
      as (p2 & -> & _ & Hs2). rewrite (Hs2 Hall).
    exists (sched p1), (sched p2). rewrite <- app_assoc. reflexivity.
  - destruct (launch_no_throw run e SpecificGroup s1 Hno [])
      as (p1 & -> & _ & Hs1). rewrite (Hs1 Hall).
    exists (sched p1), []. cbn. rewrite !app_nil_r. reflexivity.
  - destruct (launch_no_throw run e WildcardGroup s2 Hno [])
      as (p2 & -> & _ & Hs2). rewrite (Hs2 Hall).
    exists [], (sched p2). reflexivity.
  - exists [], []. reflexivity.
Qed.

(** One group: its handlers are invoked first, then the promises settle;
    and when the group's [Promise.all] is fulfilled, every handler of the
    group has settled. *)
Lemma run_group_shape
    (sched : list (HandlerRef * PromiseEnd) -> list (HandlerRef * PromiseEnd))
    (run : Behaviour) (e : WebhookEvent) (g : Group)
    (group : option HandlerSet) (called : list HandlerRef) :
  (forall l, Permutation (sched l) l) ->
  exists inv set,
    snd (fst (run_group sched run e g group called)) = (inv ++ set)%list
    /\ Forall (fun ev => is_invoke_in g ev = true) inv
    /\ Forall (fun ev => is_invoke ev = false) set
    /\ (fst (fst (run_group sched run e g group called)) = EmitResolved ->
        forall s h, group = Some s -> In h s -> In (EvSettled g h) set).
Proof.
  intros Hperm. unfold run_group.
  destruct group as [hs|].
  - pose proof (launch_shape run e g hs called) as [Hinv Hfst].
    destruct (launch run e g hs called) as [[[evs pending] thrown] c].
    cbn [fst snd] in Hinv, Hfst.
    exists evs, (settle e g (sched pending)).
    assert (Hset := settle_no_invoke e g (sched pending)).
    destruct thrown as [err|].
    + cbn [fst snd]. repeat split; auto. discriminate.
    + destruct (existsb never_settles pending) eqn:Hnever; cbn [fst snd].
      * repeat split; auto. discriminate.
      * repeat split; auto.
        intros _ s h [= <-] Hin. rewrite <- (Hfst eq_refl) in Hin.
        apply in_map_iff in Hin as ([h' p] & Hh & Hin). cbn in Hh. subst h'.
        apply settle_complete with (p := p).
        -- eapply Permutation_in; [apply Permutation_sym, Hperm | exact Hin].
        -- intros ->.
           assert (existsb never_settles pending = true); [|congruence].
           apply existsb_exists. exists (h, NeverSettles). auto.
  - exists [], []. cbn. repeat split; auto. discriminate.
Qed.

(** C7, as the code has it.  Within one [emit], the handlers of a group
    are all invoked before any promise of that group is awaited, but the
    two groups are awaited in turn: the trace is the invocations of the
    event type's handlers, their settling, the invocations of the ['*']
    handlers, their settling; and a ['*'] handler is only invoked once
    every handler of the event type has settled. *)
Theorem groups_are_awaited_in_turn
    (sched : list (HandlerRef * PromiseEnd) -> list (HandlerRef * PromiseEnd))
    (run : Behaviour) (handlers : Registry) (e : WebhookEvent) :
  (forall l, Permutation (sched l) l) ->
  exists inv1 set1 inv2 set2,
    snd (emit sched run handlers e) = (inv1 ++ set1 ++ inv2 ++ set2)%list
    /\ Forall (fun ev => is_invoke_in SpecificGroup ev = true) inv1
    /\ Forall (fun ev => is_invoke ev = false) set1
    /\ Forall (fun ev => is_invoke_in WildcardGroup ev = true) inv2
    /\ Forall (fun ev => is_invoke ev = false) set2
    /\ (inv2 <> [] ->
        forall s h, map_get (event e) handlers = Some s -> In h s ->
                    In (EvSettled SpecificGroup h) set1).
Proof.
  intros Hperm. unfold emit.
  destruct (run_group_shape sched run e SpecificGroup
              (map_get (event e) handlers) [] Hperm)
    as (inv1 & set1 & Htr1 & Hinv1 & Hset1 & Hdone1).
  destruct (run_group sched run e SpecificGroup
              (map_get (event e) handlers) []) as [[end1 tr1] called1].
  cbn [fst snd] in Htr1, Hdone1. subst tr1.
  destruct end1.
  - destruct (run_group_shape sched run e WildcardGroup
                (map_get wildcard handlers) called1 Hperm)
      as (inv2 & set2 & Htr2 & Hinv2 & Hset2 & _).
    destruct (run_group sched run e WildcardGroup
                (map_get wildcard handlers) called1) as [[end2 tr2] c2].
    cbn [fst snd] in Htr2 |- *. subst tr2.
    exists inv1, set1, inv2, set2. rewrite <- app_assoc.
    repeat split; auto.
    intros _ s h Hs Hin. exact (Hdone1 eq_refl s h Hs Hin).
  - exists inv1, set1, [], []. cbn [snd]. rewrite !app_nil_r.
    repeat split; auto. congruence.
  - exists inv1, set1, [], []. cbn [snd]. rewrite !app_nil_r.
    repeat split; auto. congruence.
Qed.

Lemma groups_are_awaited_in_turn_witness :
  exists inv1 set1 inv2 set2,
    snd (emit in_order all_resolve
           (run_ops [On execution_completed 1%nat; On wildcard 2%nat])
           (test_event execution_completed))
    = (inv1 ++ set1 ++ inv2 ++ set2)%list
    /\ Forall (fun ev => is_invoke_in SpecificGroup ev = true) inv1
    /\ Forall (fun ev => is_invoke ev = false) set1
    /\ Forall (fun ev => is_invoke_in WildcardGroup ev = true) inv2
    /\ Forall (fun ev => is_invoke ev = false) set2
    /\ (inv2 <> [] ->
        forall s h,
          map_get (event (test_event execution_completed))
            (run_ops [On execution_completed 1%nat; On wildcard 2%nat])
          = Some s ->
          In h s -> In (EvSettled SpecificGroup h) set1).
Proof.
  apply (groups_are_awaited_in_turn in_order all_resolve
           (run_ops [On execution_completed 1%nat; On wildcard 2%nat])
           (test_event execution_completed)).
  intros l. unfold in_order. apply Permutation_refl.
Defined.

(** C7, as stated, fails: with one handler under the event's type and one
    under ['*'], the ['*'] handler is invoked only after the handler of
    the event's type has settled. *)
Lemma wildcard_handler_waits_for_specific_group :
  emit in_order all_resolve
    (run_ops [On execution_completed 1%nat; On wildcard 2%nat])
    (test_event execution_completed)
  = (EmitResolved,
     [EvInvoke SpecificGroup 1%nat; EvSettled SpecificGroup 1%nat;
      EvInvoke WildcardGroup 2%nat; EvSettled WildcardGroup 2%nat]).
Proof. reflexivity. Qed.

(** With handlers that return and settle, a handler is invoked once for
    each group it is registered in. *)
Lemma invocations_emit
    (sched : list (HandlerRef * PromiseEnd) -> list (HandlerRef * PromiseEnd))
    (run : Behaviour) (ops : list Op) (e : WebhookEvent) (h : HandlerRef) :
  no_sync_throw run e -> all_settle run e ->
  invocations h (snd (emit sched run (run_ops ops) e))
  = ((if registered (event e) h (run_ops ops) then 1 else 0)
     + (if registered wildcard h (run_ops ops) then 1 else 0))%nat.
Proof.
  intros Hno Hall.
  destruct (emit_well_behaved sched run (run_ops ops) e Hno Hall)
    as (p1 & p2 & ->). cbn [snd].
  rewrite !invocations_app, !invocations_settle, !Nat.add_0_r.
  pose proof (run_ops_well_formed ops) as Hwf.
  unfold registered.
  assert (Hgroup : forall t g,
    invocations h (map (EvInvoke g)
                     (Js.nullish (map_get t (run_ops ops)) []))
    = (match map_get t (run_ops ops) with
       | Some s => if set_has h s then 1 else 0
       | None => 0
       end)%nat).
  { intros t g. destruct (map_get t (run_ops ops)) as [s|] eqn:Hget;
      cbn [Js.nullish]; [|reflexivity].
    destruct (well_formed_get t _ s Hwf Hget) as [_ Hnd].
    apply invocations_launched, Hnd. }
  rewrite !Hgroup.
  destruct (map_get (event e) (run_ops ops));
    destruct (map_get wildcard (run_ops ops)); reflexivity.
Qed.

(** C10, as the code has it.  With handlers that return and whose
    promises settle, one [emit] invokes a handler once for each of the two
    groups it is registered in, the event's own type and ['*']; so an
    event of type ['*'] invokes every handler registered under ['*']
    exactly twice, and an event of a concrete type invokes a handler that
    is registered under only one of the type and ['*'] exactly once. *)
Theorem handlers_run_once_per_group
    (sched : list (HandlerRef * PromiseEnd) -> list (HandlerRef * PromiseEnd))
    (run : Behaviour) (ops : list Op) (e : WebhookEvent) (h : HandlerRef) :
  no_sync_throw run e -> all_settle run e ->
  invocations h (snd (emit sched run (run_ops ops) e))
  = ((if registered (event e) h (run_ops ops) then 1 else 0)
     + (if registered wildcard h (run_ops ops) then 1 else 0))%nat
  /\ (event e = wildcard ->
      registered wildcard h (run_ops ops) = true ->
      invocations h (snd (emit sched run (run_ops ops) e)) = 2%nat)
  /\ (event e <> wildcard ->
      xorb (registered (event e) h (run_ops ops))
           (registered wildcard h (run_ops ops)) = true ->
      invocations h (snd (emit sched run (run_ops ops) e)) = 1%nat).
Proof.
  intros Hno Hall.
  pose proof (invocations_emit sched run ops e h Hno Hall) as Hcount.
  split; [exact Hcount|]. split.
  - intros He Hreg. rewrite Hcount, He, Hreg. reflexivity.
  - intros _ Hx. rewrite Hcount.
    destruct (registered (event e) h (run_ops ops)),
      (registered wildcard h (run_ops ops)); cbn in Hx;
      try discriminate; reflexivity.
Qed.

Lemma handlers_run_once_per_group_witness :
  invocations 1%nat
    (snd (emit in_order all_return
            (run_ops [On wildcard 1%nat; On wildcard 2%nat])
            (test_event wildcard)))
  = ((if registered (event (test_event wildcard)) 1%nat
           (run_ops [On wildcard 1%nat; On wildcard 2%nat])
      then 1 else 0)
     + (if registered wildcard 1%nat
             (run_ops [On wildcard 1%nat; On wildcard 2%nat])
        then 1 else 0))%nat
  /\ (event (test_event wildcard) = wildcard ->
      registered wildcard 1%nat
        (run_ops [On wildcard 1%nat; On wildcard 2%nat]) = true ->
      invocations 1%nat
        (snd (emit in_order all_return
                (run_ops [On wildcard 1%nat; On wildcard 2%nat])
                (test_event wildcard))) = 2%nat)
  /\ (event (test_event wildcard) <> wildcard ->
      xorb (registered (event (test_event wildcard)) 1%nat
              (run_ops [On wildcard 1%nat; On wildcard 2%nat]))
           (registered wildcard 1%nat
              (run_ops [On wildcard 1%nat; On wildcard 2%nat])) = true ->
      invocations 1%nat
        (snd (emit in_order all_return
                (run_ops [On wildcard 1%nat; On wildcard 2%nat])
                (test_event wildcard))) = 1%nat).
Proof.
  apply (handlers_run_once_per_group in_order all_return
           [On wildcard 1%nat; On wildcard 2%nat] (test_event wildcard)
           1%nat).
  - intros h n err. discriminate.
  - intros h n. discriminate.
Defined.

(** C10, as stated, fails for a concrete event type: a handler registered
    under both the event's type and ['*'] is invoked twice by one [emit]. *)
Lemma handler_under_type_and_wildcard_runs_twice :
  event (test_event execution_completed) <> wildcard
  /\ registered execution_completed 7%nat
       (run_ops [On execution_completed 7%nat; On wildcard 7%nat]) = true
  /\ emit in_order all_return
       (run_ops [On execution_completed 7%nat; On wildcard 7%nat])
       (test_event execution_completed)
     = (EmitResolved,
        [EvInvoke SpecificGroup 7%nat; EvSettled SpecificGroup 7%nat;
         EvInvoke WildcardGroup 7%nat; EvSettled WildcardGroup 7%nat])
  /\ invocations 7%nat
       (snd (emit in_order all_return
               (run_ops [On execution_completed 7%nat; On wildcard 7%nat])
               (test_event execution_completed))) = 2%nat.
Proof. repeat split. discriminate. Qed.

(** *** Failing handlers *)

(** A rejected promise is contained: the failure is logged, the sibling
    and the ['*'] handler run, and [emit] resolves. *)
Lemma rejecting_handler_is_isolated :
  emit in_order first_rejects
    (run_ops [On execution_completed 1%nat; On execution_completed 2%nat;
              On wildcard 3%nat])
    (test_event execution_completed)
  = (EmitResolved,
     [EvInvoke SpecificGroup 1%nat; EvInvoke SpecificGroup 2%nat;
      EvConsoleError "Error in webhook handler for execution.completed:"
        "Handler error";
      EvSettled SpecificGroup 1%nat; EvSettled SpecificGroup 2%nat;
      EvInvoke WildcardGroup 3%nat; EvSettled WildcardGroup 3%nat]).
Proof. reflexivity. Qed.

(** With handlers that return and settle, whatever their promises end
    in, [emit] resolves and every handler registered for the event is
    invoked. *)
Lemma rejections_are_isolated
    (sched : list (HandlerRef * PromiseEnd) -> list (HandlerRef * PromiseEnd))
    (run : Behaviour) (ops : list Op) (e : WebhookEvent) :
  no_sync_throw run e -> all_settle run e ->
  fst (emit sched run (run_ops ops) e) = EmitResolved
  /\ forall h,
       registered (event e) h (run_ops ops) = true
       \/ registered wildcard h (run_ops ops) = true ->
       (1 <= invocations h (snd (emit sched run (run_ops ops) e)))%nat.
Proof.
  intros Hno Hall. split.
  - destruct (emit_well_behaved sched run (run_ops ops) e Hno Hall)
      as (p1 & p2 & ->). reflexivity.
  - intros h Hreg.
    rewrite (invocations_emit sched run ops e h Hno Hall).
    destruct Hreg as [-> | ->];
      destruct (registered _ h (run_ops ops)); cbn; lia.
Qed.

(** C6 on the code: a handler that throws before returning is not
    contained.  With handlers 1 (throws) and 2 under the event's type and
    handler 3 under ['*'], [emit] rejects with the handler's exception,
    nothing is logged, and handlers 2 and 3 are never invoked. *)
Theorem throwing_handler_aborts_emit :
  emit in_order first_throws
    (run_ops [On execution_completed 1%nat; On execution_completed 2%nat;
              On wildcard 3%nat])
    (test_event execution_completed)
  = (EmitRejected "Handler error", [EvInvoke SpecificGroup 1%nat])
  /\ invocations 2%nat
       (snd (emit in_order first_throws
               (run_ops [On execution_completed 1%nat;
                         On execution_completed 2%nat; On wildcard 3%nat])
               (test_event execution_completed))) = 0%nat
  /\ invocations 3%nat
       (snd (emit in_order first_throws
               (run_ops [On execution_completed 1%nat;
                         On execution_completed 2%nat; On wildcard 3%nat])
               (test_event execution_completed))) = 0%nat.
Proof. repeat split. Qed.

End HandlerFacts.

(** * Further properties *)

(** ** The executor on arbitrary request functions *)

Module ExecutorFacts.
Import Errors Client Spec Attempts Scenarios MoreScenarios.

(** The loop stops at the first attempt whose outcome stops it, or at the
    last one allowed. *)
Lemma retry_loop_stops_at (cfg : Config) (requestFn : nat -> Settled)
    (maxRetries : Z) (k : nat) :
  forall (fuel : nat) (attempt : Z) (calls : nat)
         (last : option AISpineError),
    attempt + Z.of_nat k <= maxRetries ->
    (k < fuel)%nat ->
    (forall i, (i < k)%nat -> stops (requestFn (calls + i)%nat) = false) ->
    stops (requestFn (calls + k)%nat) = true
    \/ attempt + Z.of_nat k = maxRetries ->
    exists tr,
      retry_loop fuel cfg requestFn maxRetries attempt calls last
      = Some (completion_of (requestFn (calls + k)%nat), tr)
      /\ actions tr = backoff_schedule k attempt.
Proof.
  induction k as [|k IH]; intros fuel attempt calls last Hle Hfuel Hbefore Hat.
  - destruct fuel as [|fuel]; [lia|]. cbn [retry_loop].
    destruct (Z.leb_spec attempt maxRetries); [|lia].
    rewrite Nat.add_0_r in *.
    destruct (requestFn calls) as [r|why] eqn:Hreq.
    + eexists; split; reflexivity.
    + cbn [stops completion_of] in *.
      change (match why with
              | RejectedWith e => e
              | RejectedOther what =>
                  new_AISpineError "Unexpected error" UNKNOWN_ERROR None
                    (Some [("originalError", what)])
              end) with (thrown_error why).
      destruct (is_terminal_status (status (thrown_error why))) eqn:Ht.
      * eexists; split; reflexivity.
      * destruct Hat as [Hat|Hat]; [discriminate|].
        destruct (Z.eqb_spec attempt maxRetries); [|lia].
        eexists; split; reflexivity.
  - destruct fuel as [|fuel]; [lia|]. cbn [retry_loop].
    destruct (Z.leb_spec attempt maxRetries); [|lia].
    pose proof (Hbefore 0%nat ltac:(lia)) as H0.
    rewrite Nat.add_0_r in H0.
    destruct (requestFn calls) as [r|why] eqn:Hreq; [discriminate|].
    cbn [stops] in H0.
    change (match why with
            | RejectedWith e => e
            | RejectedOther what =>
                new_AISpineError "Unexpected error" UNKNOWN_ERROR None
                  (Some [("originalError", what)])
            end) with (thrown_error why).
    rewrite H0.
    destruct (Z.eqb_spec attempt maxRetries); [lia|].
    destruct (IH fuel (attempt + 1) (S calls) (Some (thrown_error why)))
      as (tr & Hloop & Hact); [lia | lia | | |].
    + intros i Hi. replace (S calls + i)%nat with (calls + S i)%nat by lia.
      apply Hbefore. lia.
    + replace (S calls + k)%nat with (calls + S k)%nat by lia.
      destruct Hat as [Hat|Hat]; [left; exact Hat | right; lia].
    + rewrite Hloop. replace (S calls + k)%nat with (calls + S k)%nat by lia.
      eexists; split; [reflexivity|].
      cbn [backoff_schedule].
      change (actions (EvRequest attempt :: EvSleep (retry_delay attempt)
                       :: ?l ++ tr))
        with (EvRequest attempt :: EvSleep (retry_delay attempt)
              :: actions (l ++ tr)).
      rewrite ClientFacts.actions_app, Hact.
      destruct (debug cfg); reflexivity.
Qed.

(** Among the attempts 0 .. n there is a first one that stops the loop,
    or none does. *)
Lemma first_stop (requestFn : nat -> Settled) (n : nat) :
  exists k, (k <= n)%nat
    /\ (forall i, (i < k)%nat -> stops (requestFn i) = false)
    /\ (stops (requestFn k) = true \/ k = n).
Proof.
  induction n as [|n IH].
  - exists 0%nat. repeat split; [lia | intros i Hi; lia | right; reflexivity].
  - destruct IH as (k & Hk & Hbefore & Hat).
    destruct Hat as [Hat|Hat].
    + exists k. repeat split; [lia | exact Hbefore | left; exact Hat].
    + subst k. destruct (stops (requestFn n)) eqn:Hn.
      * exists n. repeat split; [lia | exact Hbefore | left; exact Hn].
      * exists (S n). repeat split; [lia | | right; reflexivity].
        intros i Hi. destruct (Nat.eq_dec i n) as [->|Hne]; [exact Hn|].
        apply Hbefore. lia.
Qed.

Lemma sleeps_bounded (k : nat) :
  forall attempt : Z,
    0 <= attempt ->
    Forall (fun ms => 1000 <= ms <= 10000) (sleeps (backoff_schedule k attempt)).
Proof.
  induction k as [|k IH]; intros attempt Hpos; cbn [backoff_schedule sleeps].
  - constructor.
  - constructor; [|apply IH; lia].
    unfold retry_delay.
    assert (0 < 2 ^ attempt) by (apply Z.pow_pos_nonneg; lia).
    lia.
Qed.

Lemma sleeps_length (k : nat) :
  forall attempt : Z,
    List.length (sleeps (backoff_schedule k attempt)) = k.
Proof.
  induction k as [|k IH]; intros attempt; cbn [backoff_schedule sleeps List.length];
    [reflexivity|].
  rewrite IH. reflexivity.
Qed.

Lemma executeWithRetry_stops_at (cfg : Config)
    (requestFn : nat -> Settled) (options : RequestOptions) (k : nat) :
  Z.of_nat k <= effective_retries cfg options ->
  (forall i, (i < k)%nat -> stops (requestFn i) = false) ->
  stops (requestFn k) = true \/ Z.of_nat k = effective_retries cfg options ->
  exists tr,
    executeWithRetry cfg requestFn options
    = Some (completion_of (requestFn k), tr)
    /\ actions tr = backoff_schedule k 0
    /\ attempts tr = Z.of_nat k + 1
    /\ sleeps tr = spec_delays k.
Proof.
  intros Hk Hbefore Hat. unfold executeWithRetry.
  destruct (retry_loop_stops_at cfg requestFn (effective_retries cfg options)
              k (Z.to_nat (effective_retries cfg options + 1)) 0 0%nat None)
    as (tr & Hloop & Hact); [lia | lia | exact Hbefore | | ].
  - destruct Hat as [Hat|Hat]; [left; exact Hat | right; lia].
  - exists tr. cbn [Nat.add] in Hloop.
    split; [exact Hloop|]. split; [exact Hact|]. split.
    + rewrite <- ClientFacts.attempts_actions, Hact,
        ClientFacts.attempts_backoff_schedule. reflexivity.
    + rewrite <- ClientFacts.sleeps_actions, Hact,
        ClientFacts.sleeps_backoff_schedule. reflexivity.
Qed.

(** X1.  The executor stops at the first attempt that is answered or fails
    with status 400, 401, 403 or 404, and otherwise at attempt
    [maxRetries]: if that attempt is number [k], the trace is [k] times
    request-and-sleep followed by one request, and the executor ends with
    the outcome of attempt [k] -- its response, copied field by field, or
    its error. *)
Theorem executor_stops_at_first_final_attempt (cfg : Config)
    (requestFn : nat -> Settled) (options : RequestOptions) (k : nat) :
  Z.of_nat k <= effective_retries cfg options ->
  (forall i, (i < k)%nat -> stops (requestFn i) = false) ->
  stops (requestFn k) = true \/ Z.of_nat k = effective_retries cfg options ->
  exists tr,
    executeWithRetry cfg requestFn options
    = Some (completion_of (requestFn k), tr)
    /\ actions tr = backoff_schedule k 0
    /\ attempts tr = Z.of_nat k + 1
    /\ sleeps tr = spec_delays k.
Proof.
  apply executeWithRetry_stops_at.
Qed.

(** Two failures with a 503 response, then an answer. *)
Lemma executor_stops_at_first_final_attempt_witness :
  exists tr,
    executeWithRetry default_client (http default_client third_time_lucky)
      no_options
    = Some (completion_of (http default_client third_time_lucky 2%nat), tr)
    /\ actions tr = backoff_schedule 2 0
    /\ attempts tr = Z.of_nat 2 + 1
    /\ sleeps tr = spec_delays 2.
Proof.
  apply (executor_stops_at_first_final_attempt default_client
           (http default_client third_time_lucky) no_options 2%nat).
  - vm_compute. discriminate.
  - intros i Hi.
    destruct i as [|[|i]]; [reflexivity | reflexivity | lia].
  - left. reflexivity.
Defined.

Lemma sum_bounded (l : list Z) (hi : Z) :
  Forall (fun ms => 1000 <= ms <= hi) l ->
  fold_right Z.add 0 l <= hi * Z.of_nat (List.length l).
Proof.
  induction 1 as [|x l Hx Hl IH]; cbn [fold_right List.length]; [lia|].
  rewrite Nat2Z.inj_succ. lia.
Qed.

(** X2.  Whatever the request function does, with a retry count of at
    least 0 the executor makes between 1 and [maxRetries + 1] requests,
    sleeps exactly once between two consecutive requests and never after
    the last one, every sleep lasts between 1000 and 10000 ms (so the
    waiting adds up to at most 10000 * maxRetries ms), and it ends with
    the outcome of the last request it made. *)
Theorem executor_is_bounded (cfg : Config) (requestFn : nat -> Settled)
    (options : RequestOptions) :
  0 <= effective_retries cfg options ->
  exists k tr,
    executeWithRetry cfg requestFn options
    = Some (completion_of (requestFn k), tr)
    /\ actions tr = backoff_schedule k 0
    /\ 1 <= attempts tr <= effective_retries cfg options + 1
    /\ Z.of_nat (List.length (sleeps tr)) = attempts tr - 1
    /\ Forall (fun ms => 1000 <= ms <= 10000) (sleeps tr)
    /\ fold_right Z.add 0 (sleeps tr)
       <= 10000 * effective_retries cfg options.
Proof.
  intros Hpos.
  destruct (first_stop requestFn (Z.to_nat (effective_retries cfg options)))
    as (k & Hk & Hbefore & Hat).
  destruct (executeWithRetry_stops_at cfg requestFn options k)
    as (tr & Hrun & Hact & Hatt & _); [lia | exact Hbefore | |].
  { destruct Hat as [Hat|Hat]; [left; exact Hat | right; lia]. }
  exists k, tr.
  assert (Hsl : sleeps tr = sleeps (backoff_schedule k 0))
    by (rewrite <- Hact; symmetry; apply ClientFacts.sleeps_actions).
  pose proof (sleeps_bounded k 0 ltac:(lia)) as Hb.
  pose proof (sum_bounded _ _ Hb) as Hsum.
  rewrite sleeps_length in Hsum.
  rewrite Hsl, sleeps_length.
  repeat split; try assumption; try lia.
Qed.

Lemma executor_is_bounded_witness :
  exists k tr,
    executeWithRetry default_client (http default_client always_503)
      no_options
    = Some (completion_of (http default_client always_503 k), tr)
    /\ actions tr = backoff_schedule k 0
    /\ 1 <= attempts tr <= effective_retries default_client no_options + 1
    /\ Z.of_nat (List.length (sleeps tr)) = attempts tr - 1
    /\ Forall (fun ms => 1000 <= ms <= 10000) (sleeps tr)
    /\ fold_right Z.add 0 (sleeps tr)
       <= 10000 * effective_retries default_client no_options.
Proof.
  apply (executor_is_bounded default_client
           (http default_client always_503) no_options).
  vm_compute. discriminate.
Defined.

Lemma handleError_terminal_test (cfg : Config) (e : AxiosError) :
  is_terminal_status (status (handleError cfg e))
  = negb (retryable_failure e).
Proof.
  unfold handleError, retryable_failure.
  destruct (ax_response e) as [r|].
  - rewrite ClientFacts.createErrorFromResponse_status.
    cbn [is_terminal_status]. rewrite negb_involutive. reflexivity.
  - destruct (match ax_code e with
              | Some c => (c =? "ECONNABORTED")%string || (c =? "ETIMEDOUT")%string
              | None => false
              end); reflexivity.
Qed.

(** X5.  The executor's no-retry test on a classified transport failure
    fires exactly for a response with status 400, 401, 403 or 404: a
    failure without response is never final, be it a timeout (which is
    given status 408) or a network error (which has no status), and the
    network errors are the only classified errors without status. *)
Theorem terminal_exactly_for_four_statuses (cfg : Config) (e : AxiosError) :
  is_terminal_status (status (handleError cfg e))
  = negb (retryable_failure e)
  /\ (is_terminal_status (status (handleError cfg e)) = true <->
      exists r, ax_response e = Some r
                /\ In (err_status r) [400; 401; 403; 404])
  /\ (status (handleError cfg e) = None <->
      kind_of (handleError cfg e) = network_kind).
Proof.
  unfold handleError, retryable_failure.
  destruct (ax_response e) as [r|].
  - rewrite ClientFacts.createErrorFromResponse_status.
    cbn [is_terminal_status]. rewrite negb_involutive.
    split; [reflexivity|]. split.
    + split.
      * intros H. exists r. split; [reflexivity|].
        apply orb_prop in H as [H|H]; [apply orb_prop in H as [H|H];
          [apply orb_prop in H as [H|H]|]|];
          apply Z.eqb_eq in H; rewrite H; cbn; auto.
      * intros (r' & [= <-] & Hin). cbn [In] in Hin.
        destruct Hin as [<-|[<-|[<-|[<-|[]]]]]; reflexivity.
    + rewrite ClientFacts.createErrorFromResponse_kind.
      split; [discriminate|].
      unfold spec_kind_of_status, status_table, lookup_status.
      repeat match goal with
             | |- context [?a =? ?b] => destruct (a =? b)
             end; discriminate.
  - destruct (match ax_code e with
              | Some c => (c =? "ECONNABORTED")%string || (c =? "ETIMEDOUT")%string
              | None => false
              end); cbn.
    + split; [reflexivity|]. split.
      * split; [discriminate | intros (r & Hr & _); discriminate].
      * split; discriminate.
    + split; [reflexivity|]. split.
      * split; [discriminate | intros (r & Hr & _); discriminate].
      * split; reflexivity.
Qed.

(** X3.  A request whose every attempt fails without response (a timeout
    or a network error) or with a response whose status is not 400, 401,
    403 or 404 (408, 429, 5xx, any other) is attempted [maxRetries + 1]
    times with the back-off delays between the attempts, and the executor
    then throws the classified error of the last failure. *)
Theorem retryable_failures_exhaust_retries (cfg : Config)
    (options : RequestOptions) (transport : nat -> TransportResult) :
  0 <= effective_retries cfg options ->
  (forall i, (i <= Z.to_nat (effective_retries cfg options))%nat ->
     exists e, transport i = Failed e /\ retryable_failure e = true) ->
  exists e tr,
    transport (Z.to_nat (effective_retries cfg options)) = Failed e
    /\ request cfg transport options
       = Some (Threw (Some (handleError cfg e)), tr)
    /\ attempts tr = effective_retries cfg options + 1
    /\ sleeps tr = spec_delays (Z.to_nat (effective_retries cfg options)).
Proof.
  intros Hpos Hall.
  set (m := effective_retries cfg options) in *.
  assert (Hstops : forall i, (i <= Z.to_nat m)%nat ->
            stops (http cfg transport i) = false).
  { intros i Hi. destruct (Hall i Hi) as (e & Ht & Hr).
    unfold http. rewrite Ht. cbn [stops thrown_error].
    rewrite (handleError_terminal_test cfg e), Hr.
    reflexivity. }
  destruct (Hall (Z.to_nat m)) as (e & Ht & _); [lia|].
  destruct (executeWithRetry_stops_at cfg (http cfg transport)
              options (Z.to_nat m))
    as (tr & Hrun & _ & Hatt & Hsl); [fold m; lia | | right; fold m; lia |].
  { intros i Hi. apply Hstops. lia. }
  exists e, tr. split; [exact Ht|].
  unfold request. rewrite Hrun. unfold http at 1. rewrite Ht.
  cbn [completion_of thrown_error]. split; [reflexivity|].
  split; [rewrite Hatt; lia | exact Hsl].
Qed.

(** A connection that times out on every attempt. *)
Lemma retryable_failures_exhaust_retries_witness :
  exists e tr,
    always_times_out (Z.to_nat (effective_retries default_client no_options))
    = Failed e
    /\ request default_client always_times_out no_options
       = Some (Threw (Some (handleError default_client e)), tr)
    /\ attempts tr = effective_retries default_client no_options + 1
    /\ sleeps tr
       = spec_delays (Z.to_nat (effective_retries default_client no_options)).
Proof.
  apply (retryable_failures_exhaust_retries default_client no_options
           always_times_out).
  - vm_compute. discriminate.
  - intros i _. eexists. split; reflexivity.
Defined.

(** X4.  A request function that rejects with something that is not an
    [AISpineError] is retried like any other failure: after
    [maxRetries + 1] attempts the executor throws an [AISpineError] with
    message "Unexpected error", code UNKNOWN_ERROR, no status, and the
    last rejection as [details.originalError]. *)
Theorem unexpected_errors_are_retried (cfg : Config)
    (options : RequestOptions) (requestFn : nat -> Settled)
    (what : nat -> string) :
  0 <= effective_retries cfg options ->
  (forall i, (i <= Z.to_nat (effective_retries cfg options))%nat ->
     requestFn i = Rejected (RejectedOther (what i))) ->
  exists tr,
    executeWithRetry cfg requestFn options
    = Some (Threw (Some {| name := "AISpineError";
                           message := "Unexpected error";
                           code := UNKNOWN_ERROR;
                           status := None;
                           details :=
                             Some [("originalError",
                                    what (Z.to_nat
                                            (effective_retries cfg options)))];
                           validationErrors := None;
                           retryAfter := None |}), tr)
    /\ attempts tr = effective_retries cfg options + 1
    /\ sleeps tr = spec_delays (Z.to_nat (effective_retries cfg options)).
Proof.
  intros Hpos Hall.
  set (m := effective_retries cfg options) in *.
  destruct (executeWithRetry_stops_at cfg requestFn options
              (Z.to_nat m))
    as (tr & Hrun & _ & Hatt & Hsl); [fold m; lia | | right; fold m; lia |].
  { intros i Hi. rewrite Hall by lia. reflexivity. }
  exists tr. rewrite Hrun, Hall by lia.
  split; [reflexivity|]. split; [rewrite Hatt; lia | exact Hsl].
Qed.

Lemma unexpected_errors_are_retried_witness :
  exists tr,
    executeWithRetry default_client always_crashes no_options
    = Some (Threw (Some {| name := "AISpineError";
                           message := "Unexpected error";
                           code := UNKNOWN_ERROR;
                           status := None;
                           details :=
                             Some [("originalError",
                                    (fun _ : nat => "TypeError")
                                      (Z.to_nat
                                         (effective_retries default_client
                                            no_options)))];
                           validationErrors := None;
                           retryAfter := None |}), tr)
    /\ attempts tr = effective_retries default_client no_options + 1
    /\ sleeps tr
       = spec_delays (Z.to_nat (effective_retries default_client no_options)).
Proof.
  apply (unexpected_errors_are_retried default_client no_options
           always_crashes (fun _ => "TypeError")).
  - vm_compute. discriminate.
  - intros i _. reflexivity.
Defined.

End ExecutorFacts.

(** ** Error messages *)

Module ErrorFacts.
Import Errors Client Attempts MoreScenarios.

Lemma or_chain_first_truthy (m a b : option string) :
  Js.or_string (Js.or_string_opt m (Js.or_string_opt a b)) "An error occurred"
  = first_truthy [m; a; b] "An error occurred".
Proof.
  destruct m as [[|c m]|], a as [[|c' a]|], b as [[|c'' b]|]; reflexivity.
Qed.

Lemma first_truthy_not_empty (l : list (option string)) (d : string) :
  d <> EmptyString -> first_truthy l d <> EmptyString.
Proof.
  intros Hd. induction l as [|[[|c s]|] l IH]; cbn; auto. discriminate.
Qed.

Lemma error_message_shape (s : Z) (d : option ErrorBody)
    (m : option string) :
  if (s =? 404) then
    message (createErrorFromResponse s d m)
    = first_truthy [m; opt_field d body_message; opt_field d body_error]
        "An error occurred" ++ " not found"
  else if (s =? 408) then
    message (createErrorFromResponse s d m)
    = "Request timed out after "
      ++ Js.string_of_Z (Js.or_number (opt_field d body_timeout) 30000)
      ++ "ms"
  else
    message (createErrorFromResponse s d m)
    = first_truthy [m; opt_field d body_message; opt_field d body_error]
        "An error occurred".
Proof.
  unfold createErrorFromResponse. rewrite or_chain_first_truthy.
  set (msg := first_truthy _ _) in *.
  destruct (Z.eqb_spec s 400) as [->|H400]; [reflexivity|].
  destruct (Z.eqb_spec s 401) as [->|H401]; [reflexivity|].
  destruct (Z.eqb_spec s 403) as [->|H403]; [reflexivity|].
  destruct (Z.eqb_spec s 404) as [->|H404]; [reflexivity|].
  destruct (Z.eqb_spec s 408) as [->|H408]; [reflexivity|].
  destruct (Z.eqb_spec s 429) as [->|H429]; [reflexivity|].
  destruct ((s =? 500) || (s =? 502) || (s =? 503) || (s =? 504));
    reflexivity.
Qed.

(** X6.  The message of an error built from a response is never empty.
    For every status but 404 and 408 it is the first non-empty one of the
    message passed in, the body's [message] and the body's [error], and
    "An error occurred" when there is none; a 404 appends " not found" to
    that text, and a 408 reports the body's [timeout] (30000 when it is
    missing or 0) instead. *)
Theorem error_message_precedence (s : Z) (d : option ErrorBody)
    (m : option string) :
  message (createErrorFromResponse s d m) <> EmptyString
  /\ (if (s =? 404) then
       message (createErrorFromResponse s d m)
       = first_truthy [m; opt_field d body_message; opt_field d body_error]
           "An error occurred" ++ " not found"
     else if (s =? 408) then
       message (createErrorFromResponse s d m)
       = "Request timed out after "
         ++ Js.string_of_Z (Js.or_number (opt_field d body_timeout) 30000)
         ++ "ms"
     else
       message (createErrorFromResponse s d m)
       = first_truthy [m; opt_field d body_message; opt_field d body_error]
           "An error occurred").
Proof.
  assert (Hne : first_truthy [m; opt_field d body_message;
                               opt_field d body_error] "An error occurred"
                <> EmptyString)
    by (apply first_truthy_not_empty; discriminate).
  pose proof (error_message_shape s d m) as Hshape.
  split; [|exact Hshape].
  destruct (s =? 404); [|destruct (s =? 408)]; rewrite Hshape.
  - destruct (first_truthy _ _); [congruence | discriminate].
  - discriminate.
  - exact Hne.
Qed.

(** X7.  Through [handleError] the message passed in is the message of
    the Axios error, so the text the server sent in the body's [message]
    or [error] reaches the classified error only when the Axios error has
    an empty message. *)
Theorem server_message_is_shadowed (cfg : Config) (e : AxiosError)
    (r : ErrorResponse) :
  ax_response e = Some r ->
  ax_message e <> EmptyString ->
  err_status r <> 404 -> err_status r <> 408 ->
  message (handleError cfg e) = ax_message e.
Proof.
  intros Hr Hm H404 H408. unfold handleError. rewrite Hr.
  pose proof (error_message_shape (err_status r) (err_data r)
                (Some (ax_message e))) as Hshape.
  destruct (Z.eqb_spec (err_status r) 404); [contradiction|].
  destruct (Z.eqb_spec (err_status r) 408); [contradiction|].
  rewrite Hshape. cbn [first_truthy].
  destruct (ax_message e); [congruence | reflexivity].
Qed.

(** A 500 response whose body carries the server's own message. *)
Lemma server_message_is_shadowed_witness :
  message (handleError Scenarios.default_client failed_with_body)
  = ax_message failed_with_body.
Proof.
  apply (server_message_is_shadowed Scenarios.default_client failed_with_body
           {| err_status := 500;
              err_data :=
                Some {| body_message := Some "database unavailable";
                        body_error := None; body_details := None;
                        body_validation_errors := None;
                        body_retry_after := None; body_timeout := None |} |}).
  - reflexivity.
  - discriminate.
  - discriminate.
  - discriminate.
Defined.

End ErrorFacts.

(** ** The client's configuration *)

Module ConfigFacts.
Import Client ClientState Scenarios MoreScenarios.

(** X8.  [updateConfig] keeps a retry count of 0, which the constructor
    replaces by 3: after an update with [retries: 0] the configuration has
    0 retries, and a request without per-call options is attempted exactly
    once, without sleep, whatever the request does. *)
Theorem updateConfig_keeps_zero_retries (st : State) (u : ConfigUpdates)
    (requestFn : nat -> Settled) :
  up_retries u = Some 0 ->
  retries (getConfig (updateConfig u st)) = 0
  /\ exists c,
       executeWithRetry (getConfig (updateConfig u st)) requestFn no_options
       = Some (c, [EvRequest 0]).
Proof.
  intros Hu.
  assert (Hr : retries (getConfig (updateConfig u st)) = 0)
    by (cbn; rewrite Hu; reflexivity).
  split; [exact Hr|].
  unfold executeWithRetry, effective_retries.
  cbn [Js.nullish opt_retries no_options]. rewrite Hr.
  change (Z.to_nat (0 + 1)) with 1%nat.
  cbn [retry_loop Z.leb Z.compare Z.eqb].
  destruct (requestFn 0%nat) as [resp|why].
  - eexists. reflexivity.
  - match goal with
    | |- context [is_terminal_status ?s] => destruct (is_terminal_status s)
    end; eexists; reflexivity.
Qed.

(** A client created with [retries: 0] (which becomes 3) and then updated
    with [retries: 0], against a server that always answers 503. *)
Lemma updateConfig_keeps_zero_retries_witness :
  retries (constructor (inl {| in_apiKey := Some "sk_test_key";
                               in_baseURL := None; in_timeout := None;
                               in_retries := Some 0; in_debug := None |}))
  = 3
  /\ retries (getConfig (updateConfig zero_retries
                           (new_AISpineClient (inr "sk_test_key")))) = 0
  /\ exists c,
       executeWithRetry
         (getConfig (updateConfig zero_retries
                       (new_AISpineClient (inr "sk_test_key"))))
         (http default_client always_503) no_options
       = Some (c, [EvRequest 0]).
Proof.
  split; [reflexivity|].
  apply (updateConfig_keeps_zero_retries
           (new_AISpineClient (inr "sk_test_key")) zero_retries
           (http default_client always_503)).
  reflexivity.
Defined.

(** X9.  The axios defaults (base URL, timeout, Authorization header)
    agree with the configuration when the client is created, and
    [updateConfig] keeps them in agreement for every update whose
    [baseURL], [timeout] and [apiKey], where present, are truthy. *)
Theorem updateConfig_keeps_defaults_in_sync (arg : AISpineConfig + string)
    (updates : list ConfigUpdates) :
  Forall truthy_updates updates ->
  in_sync (fold_left (fun st u => updateConfig u st) updates
             (new_AISpineClient arg)).
Proof.
  intros Hall.
  assert (Hstep : forall u st, truthy_updates u -> in_sync st ->
                               in_sync (updateConfig u st)).
  { intros u st (Hb & Ht & Hk) (Sb & St & Sk).
    unfold in_sync, updateConfig, truthy_updates in *;
      cbn [config defaults d_baseURL d_timeout d_authorization apiKey baseURL
           timeout].
    repeat split.
    - destruct (up_baseURL u) as [[|c b]|]; cbn; congruence.
    - destruct (up_timeout u) as [t|]; cbn; [|exact St].
      destruct (Z.eqb_spec t 0); congruence.
    - destruct (up_apiKey u) as [[|c k]|];
        cbn [Js.nullish]; first [congruence | exact Sk | reflexivity]. }
  assert (Hinit : in_sync (new_AISpineClient arg))
    by (repeat split).
  revert Hinit. generalize (new_AISpineClient arg).
  induction Hall as [|u updates Hu Hall IH]; intros st Hst; cbn; auto.
Qed.

Lemma updateConfig_keeps_defaults_in_sync_witness :
  in_sync (fold_left (fun st u => updateConfig u st)
             [ {| up_apiKey := Some "sk_live_rotated"; up_baseURL := None;
                  up_timeout := Some 5000; up_retries := Some 0;
                  up_debug := Some true |} ]
             (new_AISpineClient (inr "sk_test_key"))).
Proof.
  apply (updateConfig_keeps_defaults_in_sync (inr "sk_test_key")
           [ {| up_apiKey := Some "sk_live_rotated"; up_baseURL := None;
                up_timeout := Some 5000; up_retries := Some 0;
                up_debug := Some true |} ]).
  repeat constructor; discriminate.
Defined.

(** X10.  A falsy [timeout], [baseURL] or [apiKey] in an update reaches the
    configuration but not the axios instance: after
    [updateConfig({ timeout: 0 })] (or [baseURL: ''], [apiKey: ''])
    [getConfig()] reports the new value while requests still go out with
    the old default. *)
Theorem falsy_update_splits_config_and_defaults (st : State) :
  in_sync st ->
  let t0 := updateConfig {| up_apiKey := None; up_baseURL := None;
                            up_timeout := Some 0; up_retries := None;
                            up_debug := None |} st in
  let b0 := updateConfig {| up_apiKey := None; up_baseURL := Some EmptyString;
                            up_timeout := None; up_retries := None;
                            up_debug := None |} st in
  let k0 := updateConfig {| up_apiKey := Some EmptyString; up_baseURL := None;
                            up_timeout := None; up_retries := None;
                            up_debug := None |} st in
  (timeout (getConfig t0) = 0
   /\ d_timeout (defaults t0) = timeout (getConfig st))
  /\ (baseURL (getConfig b0) = EmptyString
      /\ d_baseURL (defaults b0) = baseURL (getConfig st))
  /\ (apiKey (getConfig k0) = EmptyString
      /\ d_authorization (defaults k0) = "Bearer " ++ apiKey (getConfig st)).
Proof.
  intros (Sb & St & Sk). cbn. auto.
Qed.

Lemma falsy_update_splits_config_and_defaults_witness :
  let st := new_AISpineClient (inr "sk_test_key") in
  let t0 := updateConfig {| up_apiKey := None; up_baseURL := None;
                            up_timeout := Some 0; up_retries := None;
                            up_debug := None |} st in
  let b0 := updateConfig {| up_apiKey := None; up_baseURL := Some EmptyString;
                            up_timeout := None; up_retries := None;
                            up_debug := None |} st in
  let k0 := updateConfig {| up_apiKey := Some EmptyString; up_baseURL := None;
                            up_timeout := None; up_retries := None;
                            up_debug := None |} st in
  (timeout (getConfig t0) = 0
   /\ d_timeout (defaults t0) = timeout (getConfig st))
  /\ (baseURL (getConfig b0) = EmptyString
      /\ d_baseURL (defaults b0) = baseURL (getConfig st))
  /\ (apiKey (getConfig k0) = EmptyString
      /\ d_authorization (defaults k0) = "Bearer " ++ apiKey (getConfig st)).
Proof.
  apply (falsy_update_splits_config_and_defaults
           (new_AISpineClient (inr "sk_test_key"))).
  repeat split.
Defined.

End ConfigFacts.

(** ** [WebhookRetry] *)

Module RetryFacts.
Import WebhookRetry.



End RetryFacts.

(** ** More on webhook signatures *)

Module VerifyFacts.
Import WebhookSignature Spec Observations.

(** *** Digests and their hexadecimal form *)

Lemma be_bytes_length (n : nat) (x : Z) : List.length (Node.be_bytes n x) = n.
Proof. induction n as [|n IH]; cbn; [reflexivity | rewrite IH; reflexivity]. Qed.

Lemma be_bytes_range (n : nat) (x : Z) : Forall is_byte (Node.be_bytes n x).
Proof.
  induction n as [|n IH]; cbn [Node.be_bytes]; constructor; [|exact IH].
  unfold is_byte. apply Z.mod_pos_bound. lia.
Qed.

Lemma sha256_length (msg : list Z) : List.length (Node.sha256 msg) = 32%nat.
Proof.
  unfold Node.sha256. cbn [flat_map].
  rewrite !length_app, !be_bytes_length. reflexivity.
Qed.

Lemma sha256_range (msg : list Z) : Forall is_byte (Node.sha256 msg).
Proof.
  unfold Node.sha256. cbn [flat_map].
  repeat (apply Forall_app; split); try apply be_bytes_range. constructor.
Qed.

Lemma hmac_length (key msg : list Z) :
  List.length (Node.hmac_sha256 key msg) = 32%nat.
Proof. apply sha256_length. Qed.

Lemma hmac_range (key msg : list Z) : Forall is_byte (Node.hmac_sha256 key msg).
Proof. apply sha256_range. Qed.

Lemma hex_of_bytes_length (bs : list Z) :
  String.length (Node.hex_of_bytes bs) = (2 * List.length bs)%nat.
Proof.
  induction bs as [|b bs IH]; cbn [Node.hex_of_bytes String.length List.length];
    [reflexivity|].
  rewrite IH. lia.
Qed.

Lemma hex_digit_cases (n : Z) :
  is_lower_hex (Node.hex_digit n) = true
  /\ Node.hex_value (Node.hex_digit n) = Some (n mod 16).
Proof.
  unfold Node.hex_digit.
  assert (Hr : 0 <= n mod 16 < 16) by (apply Z.mod_pos_bound; lia).
  destruct (n mod 16) as [|p|p]; [split; reflexivity | | lia].
  do 4 (try destruct p as [p|p|]); try (split; reflexivity); lia.
Qed.

Lemma hex_of_bytes_lower (bs : list Z) :
  all_lower_hex (Node.hex_of_bytes bs) = true.
Proof.
  induction bs as [|b bs IH]; cbn [Node.hex_of_bytes all_lower_hex];
    [reflexivity|].
  destruct (hex_digit_cases (b / 16)) as [-> _].
  destruct (hex_digit_cases b) as [-> _]. exact IH.
Qed.

(** Decoding the hexadecimal form of bytes gives the bytes back. *)
Lemma Buffer_from_hex_of_bytes (bs : list Z) :
  Forall is_byte bs -> Node.Buffer_from_hex (Node.hex_of_bytes bs) = bs.
Proof.
  induction 1 as [|b bs Hb Hbs IH];
    cbn [Node.hex_of_bytes Node.Buffer_from_hex]; [reflexivity|].
  destruct (hex_digit_cases (b / 16)) as [_ ->].
  destruct (hex_digit_cases b) as [_ ->].
  rewrite IH. f_equal. unfold is_byte in Hb.
  rewrite (Z.mod_small (b / 16)) by (split; [apply Z.div_pos; lia |
    apply Z.div_lt_upper_bound; lia]).
  pose proof (Z.div_mod b 16). lia.
Qed.

Lemma bytes_eqb_eq (a b : list Z) : Node.bytes_eqb a b = true -> a = b.
Proof.
  revert b. induction a as [|x a IH]; intros [|y b]; cbn; try discriminate;
    [reflexivity|].
  intros H. apply andb_prop in H as [Hx Hab].
  apply Z.eqb_eq in Hx. subst. f_equal. apply IH, Hab.
Qed.

(** The bytes [verify] compares the [v1] values with. *)
Lemma expected_bytes (secret s : string) :
  Node.Buffer_from_hex (Node.createHmac_sha256_hex secret s)
  = Node.hmac_sha256 (Node.bytes_of_string secret) (Node.bytes_of_string s).
Proof. apply Buffer_from_hex_of_bytes, hmac_range. Qed.

Lemma some_matches_true (sigs : list (option string)) (expected : string) :
  some_matches sigs expected = inl true ->
  exists sig,
    In (Some sig) sigs
    /\ Node.Buffer_from_hex sig = Node.Buffer_from_hex expected.
Proof.
  induction sigs as [|[sig|] sigs IH]; cbn [some_matches]; try discriminate.
  unfold Node.timingSafeEqual.
  destruct (List.length (Node.Buffer_from_hex sig)
            =? List.length (Node.Buffer_from_hex expected))%nat;
    [|discriminate].
  destruct (Node.bytes_eqb (Node.Buffer_from_hex sig)
              (Node.Buffer_from_hex expected)) eqn:E.
  - intros _. exists sig. split; [left; reflexivity | apply bytes_eqb_eq, E].
  - intros H. destruct (IH H) as (s & Hin & Hs). exists s. split; [right|]; auto.
Qed.

(** X12.  The header [generate] returns is "t=", the timestamp, ",v1=" and
    exactly 64 lower-case hexadecimal digits, for every secret, timestamp
    and payload. *)
Theorem generate_format (options : WebhookSignatureOptions) :
  exists digest,
    generate options = "t=" ++ timestamp options ++ ",v1=" ++ digest
    /\ String.length digest = 64%nat
    /\ all_lower_hex digest = true.
Proof.
  eexists. split; [reflexivity|]. split.
  - unfold Node.createHmac_sha256_hex.
    rewrite hex_of_bytes_length, hmac_length. reflexivity.
  - apply hex_of_bytes_lower.
Qed.

(** What a [valid: true] answer of [verify] implies. *)
Lemma verify_valid_inv (now : Z)
    (header payload secret : string) (tolerance : option Z) :
  valid (verify now header payload secret tolerance) = true ->
  exists t sig,
    header_timestamp header = Some t
    /\ t <> EmptyString
    /\ match parseInt t with
       | Some seconds =>
           now - seconds * 1000 <= Js.nullish tolerance 300 * 1000
       | None => True
       end
    /\ In (Some sig) (snd (scan_elements (split "," header) None []))
    /\ Node.Buffer_from_hex sig
       = Node.hmac_sha256 (Node.bytes_of_string secret)
           (Node.bytes_of_string (t ++ "." ++ payload))
    /\ List.length (Node.Buffer_from_hex sig) = 32%nat
    /\ error (verify now header payload secret tolerance) = None.
Proof.
  unfold verify, header_timestamp.
  destruct (scan_elements (split "," header) None []) as [ts sigs].
  cbn [fst snd].
  destruct ts as [[|c t]|]; cbn [Js.falsy_string valid]; try discriminate.
  cbn [Js.nullish].
  destruct (parseInt (String c t)) as [seconds|] eqn:Hp.
  - destruct (Z.gtb_spec (now - seconds * 1000)
                (Js.nullish tolerance 300 * 1000)); [discriminate|].
    destruct (some_matches sigs _) as [[|]|msg] eqn:E; try discriminate.
    intros _. apply some_matches_true in E as (sig & Hin & Hsig).
    rewrite expected_bytes in Hsig.
    exists (String c t), sig.
    split; [reflexivity|]. split; [discriminate|].
    split; [rewrite Hp; lia|].
    split; [exact Hin|]. split; [exact Hsig|]. split; [|reflexivity].
    rewrite Hsig. apply hmac_length.
  - destruct (some_matches sigs _) as [[|]|msg] eqn:E; try discriminate.
    intros _. apply some_matches_true in E as (sig & Hin & Hsig).
    rewrite expected_bytes in Hsig.
    exists (String c t), sig.
    split; [reflexivity|]. split; [discriminate|].
    split; [rewrite Hp; exact I|].
    split; [exact Hin|]. split; [exact Hsig|]. split; [|reflexivity].
    rewrite Hsig. apply hmac_length.
Qed.

(** X13.  [verify] answers [valid: true] only for a header that has a
    non-empty timestamp [t], is not stale (or whose timestamp is not a
    number), and lists a [v1] value that decodes to the 32 bytes of the
    HMAC-SHA256 of "t.payload" under the secret; it then reports no
    error. *)
Theorem verify_accepts_only_matching_hmac (now : Z)
    (header payload secret : string) (tolerance : option Z) :
  valid (verify now header payload secret tolerance) = true ->
  exists t sig,
    header_timestamp header = Some t
    /\ t <> EmptyString
    /\ match parseInt t with
       | Some seconds =>
           now - seconds * 1000 <= Js.nullish tolerance 300 * 1000
       | None => True
       end
    /\ In (Some sig) (snd (scan_elements (split "," header) None []))
    /\ Node.Buffer_from_hex sig
       = Node.hmac_sha256 (Node.bytes_of_string secret)
           (Node.bytes_of_string (t ++ "." ++ payload))
    /\ List.length (Node.Buffer_from_hex sig) = 32%nat
    /\ error (verify now header payload secret tolerance) = None.
Proof. apply verify_valid_inv. Qed.

(** A header signed now, with a second [v1] value after the right one. *)
Lemma verify_accepts_only_matching_hmac_witness :
  exists t sig,
    header_timestamp
      (generate {| secret := "whsec"; timestamp := "1700000000";
                   payload := "hello" |} ++ ",v1=00") = Some t
    /\ t <> EmptyString
    /\ match parseInt t with
       | Some seconds =>
           1700000000000 - seconds * 1000 <= Js.nullish (Some 300) 300 * 1000
       | None => True
       end
    /\ In (Some sig)
         (snd (scan_elements
                 (split ","
                    (generate {| secret := "whsec"; timestamp := "1700000000";
                                 payload := "hello" |} ++ ",v1=00")) None []))
    /\ Node.Buffer_from_hex sig
       = Node.hmac_sha256 (Node.bytes_of_string "whsec")
           (Node.bytes_of_string (t ++ "." ++ "hello"))
    /\ List.length (Node.Buffer_from_hex sig) = 32%nat
    /\ error (verify 1700000000000
                (generate {| secret := "whsec"; timestamp := "1700000000";
                             payload := "hello" |} ++ ",v1=00")
                "hello" "whsec" (Some 300)) = None.
Proof.
  apply (verify_accepts_only_matching_hmac 1700000000000
           (generate {| secret := "whsec"; timestamp := "1700000000";
                        payload := "hello" |} ++ ",v1=00")
           "hello" "whsec" (Some 300)).
  vm_compute. reflexivity.
Defined.

(** X14.  A timestamp that [parseInt] does not read as a number never
    expires: the header [generate] builds for it (the timestamp being a
    non-empty string without [,] and [=]) verifies as valid at every time
    and under every tolerance. *)
Theorem non_numeric_timestamp_never_expires (s t p : string) :
  parseInt t = None ->
  t <> EmptyString ->
  has_char "," t = false -> has_char "=" t = false ->
  forall (now : Z) (tolerance : option Z),
    verify now (generate {| secret := s; timestamp := t; payload := p |})
      p s tolerance
    = {| valid := true; error := None |}.
Proof.
  intros Hp Hne Hc He now tolerance.
  apply SignatureFacts.verify_generate; try assumption.
  rewrite Hp. exact I.
Qed.

(** A header stamped "never", verified long after with a tolerance of one
    second. *)
Lemma non_numeric_timestamp_never_expires_witness :
  verify 4102444800000
    (generate {| secret := "whsec"; timestamp := "never";
                 payload := "hello" |})
    "hello" "whsec" (Some 1)
  = {| valid := true; error := None |}.
Proof.
  apply (non_numeric_timestamp_never_expires "whsec" "never" "hello").
  - reflexivity.
  - discriminate.
  - reflexivity.
  - reflexivity.
Defined.

(** The result of [verify] once the timestamp check has passed. *)
Lemma verify_after_timestamp (now : Z) (header payload secret : string)
    (tolerance : option Z) (t : string) (sigs : list (option string)) :
  scan_elements (split "," header) None [] = (Some t, sigs) ->
  t <> EmptyString ->
  match parseInt t with
  | Some seconds => now - seconds * 1000 <= Js.nullish tolerance 300 * 1000
  | None => True
  end ->
  verify now header payload secret tolerance
  = match some_matches sigs
            (Node.createHmac_sha256_hex secret (t ++ "." ++ payload)) with
    | inl isValid => {| valid := isValid; error := None |}
    | inr msg =>
        {| valid := false;
           error := Some ("Signature verification failed: " ++ msg) |}
    end.
Proof.
  intros Hscan Hne Hfresh. unfold verify. rewrite Hscan.
  destruct t as [|c t]; [congruence|].
  cbn [Js.falsy_string Js.nullish].
  destruct (parseInt (String c t)) as [seconds|]; [|reflexivity].
  destruct (Z.gtb_spec (now - seconds * 1000)
              (Js.nullish tolerance 300 * 1000)); [lia | reflexivity].
Qed.

(** X15.  When the first [v1] value of a header with a fresh timestamp does
    not decode to exactly 32 bytes (it is too short, too long, or not
    hexadecimal), [verify] answers [valid: false] with the error
    "Signature verification failed: Input buffers must have the same byte
    length", whatever [v1] values follow it -- also a matching one. *)
Theorem malformed_first_signature_fails (now : Z)
    (header payload secret : string) (tolerance : option Z) (t sig : string)
    (rest : list (option string)) :
  scan_elements (split "," header) None [] = (Some t, Some sig :: rest) ->
  t <> EmptyString ->
  match parseInt t with
  | Some seconds => now - seconds * 1000 <= Js.nullish tolerance 300 * 1000
  | None => True
  end ->
  List.length (Node.Buffer_from_hex sig) <> 32%nat ->
  verify now header payload secret tolerance
  = {| valid := false;
       error := Some ("Signature verification failed: "
                      ++ "Input buffers must have the same byte length") |}.
Proof.
  intros Hscan Hne Hfresh Hlen.
  rewrite (verify_after_timestamp now header payload secret tolerance t _
             Hscan Hne Hfresh).
  cbn [some_matches]. unfold Node.timingSafeEqual.
  rewrite expected_bytes, hmac_length.
  destruct (Nat.eqb_spec (List.length (Node.Buffer_from_hex sig)) 32);
    [contradiction | reflexivity].
Qed.

(** A header whose first [v1] is not hexadecimal and whose second [v1] is
    the right signature. *)
Lemma malformed_first_signature_fails_witness :
  verify 1700000000000
    ("t=1700000000,v1=invalid_signature,v1="
     ++ Node.createHmac_sha256_hex "whsec" "1700000000.hello")
    "hello" "whsec" (Some 300)
  = {| valid := false;
       error := Some ("Signature verification failed: "
                      ++ "Input buffers must have the same byte length") |}.
Proof.
  apply (malformed_first_signature_fails 1700000000000
           ("t=1700000000,v1=invalid_signature,v1="
            ++ Node.createHmac_sha256_hex "whsec" "1700000000.hello")
           "hello" "whsec" (Some 300) "1700000000" "invalid_signature"
           [Some (Node.createHmac_sha256_hex "whsec" "1700000000.hello")]).
  - vm_compute. reflexivity.
  - discriminate.
  - simpl. lia.
  - vm_compute. discriminate.
Defined.

(** X16.  Secret rotation: a header with a fresh timestamp verifies as
    valid when one of its [v1] values decodes to the expected HMAC and
    every [v1] value before it decodes to 32 bytes. *)
Theorem any_well_formed_match_is_accepted (now : Z)
    (header payload secret : string) (tolerance : option Z) (t sig : string)
    (before after : list (option string)) :
  scan_elements (split "," header) None []
  = (Some t, (before ++ Some sig :: after)%list) ->
  t <> EmptyString ->
  match parseInt t with
  | Some seconds => now - seconds * 1000 <= Js.nullish tolerance 300 * 1000
  | None => True
  end ->
  Forall (fun v => exists s, v = Some s
                   /\ List.length (Node.Buffer_from_hex s) = 32%nat) before ->
  Node.Buffer_from_hex sig
  = Node.hmac_sha256 (Node.bytes_of_string secret)
      (Node.bytes_of_string (t ++ "." ++ payload)) ->
  verify now header payload secret tolerance
  = {| valid := true; error := None |}.
Proof.
  intros Hscan Hne Hfresh Hbefore Hsig.
  rewrite (verify_after_timestamp now header payload secret tolerance t _
             Hscan Hne Hfresh).
  assert (Hm : some_matches (before ++ Some sig :: after)
                 (Node.createHmac_sha256_hex secret (t ++ "." ++ payload))
               = inl true).
  { clear Hscan.
    induction Hbefore as [|v before (s & -> & Hlen) Hb IH];
      cbn [app some_matches].
    - rewrite expected_bytes, Hsig, SignatureFacts.timingSafeEqual_same.
      reflexivity.
    - unfold Node.timingSafeEqual at 1.
      rewrite expected_bytes, hmac_length, Hlen.
      change (32 =? 32)%nat with true. cbn iota.
      destruct (Node.bytes_eqb _ _); [reflexivity | exact IH]. }
  rewrite Hm. reflexivity.
Qed.

(** A header that lists the signature under a retired secret before the
    one under the current secret. *)
Lemma any_well_formed_match_is_accepted_witness :
  verify 1700000000000
    ("t=1700000000,v1="
     ++ Node.createHmac_sha256_hex "whsec_old" "1700000000.hello" ++ ",v1="
     ++ Node.createHmac_sha256_hex "whsec_new" "1700000000.hello")
    "hello" "whsec_new" (Some 300)
  = {| valid := true; error := None |}.
Proof.
  apply (any_well_formed_match_is_accepted 1700000000000
           ("t=1700000000,v1="
            ++ Node.createHmac_sha256_hex "whsec_old" "1700000000.hello"
            ++ ",v1="
            ++ Node.createHmac_sha256_hex "whsec_new" "1700000000.hello")
           "hello" "whsec_new" (Some 300) "1700000000"
           (Node.createHmac_sha256_hex "whsec_new" "1700000000.hello")
           [Some (Node.createHmac_sha256_hex "whsec_old" "1700000000.hello")]
           []).
  - vm_compute. reflexivity.
  - discriminate.
  - simpl. lia.
  - constructor; [|constructor]. eexists. split; [reflexivity|].
    vm_compute. reflexivity.
  - vm_compute. reflexivity.
Defined.

Lemma scan_without_timestamp (elements : list string) :
  Forall (fun element => element_key element <> "t") elements ->
  forall ts sigs, fst (scan_elements elements ts sigs) = ts.
Proof.
  induction 1 as [|element elements Hkey Hrest IH]; intros ts sigs;
    cbn [scan_elements]; [reflexivity|].
  unfold element_key in Hkey.
  destruct (String.eqb_spec (hd EmptyString (split "=" element)) "t");
    [contradiction|].
  destruct (hd EmptyString (split "=" element) =? "v1")%string; apply IH.
Qed.

(** X17.  A header none of whose comma-separated elements has the key [t]
    is answered with [valid: false] and "Missing timestamp in signature",
    before the payload, the secret or the clock are looked at; so is a
    header whose timestamp is empty. *)
Theorem header_without_timestamp_is_rejected (now : Z)
    (header payload secret : string) (tolerance : option Z) :
  Forall (fun element => element_key element <> "t") (split "," header)
  \/ header_timestamp header = Some EmptyString ->
  verify now header payload secret tolerance
  = {| valid := false; error := Some "Missing timestamp in signature" |}.
Proof.
  intros Hno.
  assert (Hts : Js.falsy_string (header_timestamp header) = true).
  { destruct Hno as [Hno|Hno].
    - unfold header_timestamp. rewrite (scan_without_timestamp _ Hno).
      reflexivity.
    - rewrite Hno. reflexivity. }
  unfold verify, header_timestamp in *.
  destruct (scan_elements (split "," header) None []) as [ts sigs].
  cbn [fst] in Hts. rewrite Hts. reflexivity.
Qed.

Lemma header_without_timestamp_is_rejected_witness :
  verify 1700000000000 "v1=abc123" "hello" "whsec" None
  = {| valid := false; error := Some "Missing timestamp in signature" |}.
Proof.
  apply (header_without_timestamp_is_rejected 1700000000000 "v1=abc123"
           "hello" "whsec" None).
  left. repeat constructor. discriminate.
Defined.

End VerifyFacts.

(** ** The Express middleware *)

Module MiddlewareFacts.
Import WebhookSignature WebhookMiddleware Spec.



(** X19.  The middleware calls [next()] only for a request that carries a
    signature header listing a [v1] value that decodes to the HMAC-SHA256
    of "t.body" under the secret, [t] being the header's non-empty and
    not stale timestamp.  Every other request is answered: with status 400
    and "Missing webhook signature" when the header is absent or empty, and
    with status 401 and a non-empty error text otherwise. *)
Theorem middleware_lets_only_signed_requests_through (secret : string)
    (tolerance : option Z) (now : Z) (req : Request) :
  match createWebhookMiddleware secret tolerance now req with
  | CalledNext =>
      exists header t sig,
        x_ai_spine_signature req = Some header
        /\ header_timestamp header = Some t
        /\ t <> EmptyString
        /\ match parseInt t with
           | Some seconds =>
               now - seconds * 1000 <= Js.nullish tolerance 300 * 1000
           | None => True
           end
        /\ In (Some sig) (snd (scan_elements (split "," header) None []))
        /\ Node.Buffer_from_hex sig
           = Node.hmac_sha256 (Node.bytes_of_string secret)
               (Node.bytes_of_string (t ++ "." ++ payload_text (body req)))
  | Replied status error =>
      (status = 400 /\ error = "Missing webhook signature"
       /\ Js.falsy_string (x_ai_spine_signature req) = true)
      \/ (status = 401 /\ error <> EmptyString
          /\ Js.falsy_string (x_ai_spine_signature req) = false)
  end.
Proof.
  unfold createWebhookMiddleware.
  destruct (Js.falsy_string (x_ai_spine_signature req)) eqn:Hf.
  - left. repeat split.
  - destruct (x_ai_spine_signature req) as [header|]; [|discriminate].
    cbn [Js.nullish]. fold (payload_text (body req)).
    destruct (valid (verify now header (payload_text (body req)) secret
                       (Some (Js.nullish tolerance 300)))) eqn:Hv;
      cbn [negb].
    + destruct (VerifyFacts.verify_valid_inv _ _ _ _ _ Hv)
        as (t & sig & Ht & Hne & Hfresh & Hin & Hsig & _).
      exists header, t, sig. repeat split; assumption.
    + right. repeat split.
      destruct (error _) as [[|c e]|]; discriminate.
Qed.

End MiddlewareFacts.

(** ** More on the handler registry and dispatch *)

Module RegistryFacts.
Import WebhookEventHandler Observations Scenarios.
Import HandlerFacts.

(** *** The registry as a map *)

Lemma map_get_set_other (t t' : WebhookEventType) (s : HandlerSet)
    (m : Registry) :
  t' <> t -> map_get t' (map_set t s m) = map_get t' m.
Proof.
  intros Hne. induction m as [|[k s0] m IH]; cbn.
  - destruct (type_eqb t t') eqn:E; [|reflexivity].
    apply type_eqb_eq in E. congruence.
  - destruct (type_eqb k t) eqn:E; cbn.
    + apply type_eqb_eq in E. subst k.
      destruct (type_eqb t t') eqn:E'; [|reflexivity].
      apply type_eqb_eq in E'. congruence.
    + destruct (type_eqb k t'); [reflexivity | exact IH].
Qed.

Lemma map_get_delete_other (t t' : WebhookEventType) (m : Registry) :
  t' <> t -> map_get t' (map_delete t m) = map_get t' m.
Proof.
  intros Hne. unfold map_delete.
  induction m as [|[k s0] m IH]; cbn; [reflexivity|].
  destruct (type_eqb k t) eqn:E; cbn.
  - apply type_eqb_eq in E. subst k.
    destruct (type_eqb t t') eqn:E'; [|exact IH].
    apply type_eqb_eq in E'. congruence.
  - destruct (type_eqb k t'); [reflexivity | exact IH].
Qed.

Lemma map_set_set (t : WebhookEventType) (x y : HandlerSet) (m : Registry) :
  map_set t x (map_set t y m) = map_set t x m.
Proof.
  induction m as [|[k s0] m IH]; cbn.
  - rewrite type_eqb_refl. reflexivity.
  - destruct (type_eqb k t) eqn:E; cbn; rewrite E; [reflexivity|].
    rewrite IH. reflexivity.
Qed.

Lemma map_set_same (t : WebhookEventType) (s : HandlerSet) (m : Registry) :
  map_get t m = Some s -> map_set t s m = m.
Proof.
  induction m as [|[k s0] m IH]; cbn; [discriminate|].
  destruct (type_eqb k t) eqn:E.
  - intros [= ->]. reflexivity.
  - intros H. rewrite (IH H). reflexivity.
Qed.

Lemma map_set_absent (t : WebhookEventType) (s : HandlerSet) (m : Registry) :
  map_get t m = None -> map_set t s m = (m ++ [(t, s)])%list.
Proof.
  induction m as [|[k s0] m IH]; cbn; [reflexivity|].
  destruct (type_eqb k t) eqn:E; [discriminate|].
  intros H. rewrite (IH H). reflexivity.
Qed.

Lemma map_delete_absent (t : WebhookEventType) (m : Registry) :
  map_get t m = None -> map_delete t m = m.
Proof.
  unfold map_delete. induction m as [|[k s0] m IH]; cbn; [reflexivity|].
  destruct (type_eqb k t) eqn:E; [discriminate|].
  intros H. cbn. rewrite (IH H). reflexivity.
Qed.

Lemma map_delete_app (t : WebhookEventType) (a b : Registry) :
  map_delete t (a ++ b)%list = (map_delete t a ++ map_delete t b)%list.
Proof. apply filter_app. Qed.

Lemma set_add_present (h : HandlerRef) (s : HandlerSet) :
  set_has h s = true -> set_add h s = s.
Proof. unfold set_add. intros ->. reflexivity. Qed.

Lemma set_has_add (h : HandlerRef) (s : HandlerSet) :
  set_has h (set_add h s) = true.
Proof.
  unfold set_add. destruct (set_has h s) eqn:E; [exact E|].
  unfold set_has. rewrite existsb_app. cbn.
  rewrite Nat.eqb_refl, orb_true_r. reflexivity.
Qed.

Lemma set_delete_fresh (h : HandlerRef) (s : HandlerSet) :
  set_has h s = false -> set_delete h (s ++ [h])%list = s.
Proof.
  unfold set_delete, set_has. intros Hs.
  rewrite filter_app. cbn. rewrite Nat.eqb_refl. cbn. rewrite app_nil_r.
  induction s as [|x s IH]; cbn in *; [reflexivity|].
  apply orb_false_iff in Hs as [Hx Hs].
  rewrite Hx. cbn. rewrite (IH Hs). reflexivity.
Qed.

(** What [on] leaves under its event type. *)
Lemma on_get (t : WebhookEventType) (h : HandlerRef) (m : Registry) :
  map_get t (on t h m) = Some (set_add h (handlers_of t m))
  /\ on t h m = map_set t (set_add h (handlers_of t m)) m.
Proof.
  unfold on, map_has, handlers_of.
  destruct (map_get t m) as [s|] eqn:Hget; cbn [negb Js.nullish].
  - rewrite Hget, map_get_set_same. split; reflexivity.
  - rewrite !map_get_set_same, map_set_set. split; reflexivity.
Qed.

(** X20.  Registering is idempotent and keeps registration order: after
    [on(t, h)] the handler is registered under [t]; a handler that was not
    yet there is added after the ones already registered under [t], and
    registering the same function again changes nothing. *)
Theorem on_has_set_semantics (t : WebhookEventType) (h : HandlerRef)
    (m : Registry) :
  registered t h (on t h m) = true
  /\ handlers_of t (on t h m)
     = (if registered t h m then handlers_of t m
        else (handlers_of t m ++ [h])%list)
  /\ on t h (on t h m) = on t h m.
Proof.
  destruct (on_get t h m) as [Hget Hon].
  split; [|split].
  - unfold registered. rewrite Hget. apply set_has_add.
  - unfold handlers_of at 1. rewrite Hget. cbn [Js.nullish].
    unfold registered, handlers_of, set_add.
    destruct (map_get t m) as [s|]; cbn [Js.nullish]; [reflexivity|].
    reflexivity.
  - destruct (on_get t h (on t h m)) as [_ Hon2].
    rewrite Hon2. unfold handlers_of at 1. rewrite Hget. cbn [Js.nullish].
    rewrite (set_add_present h _ (set_has_add h _)).
    rewrite Hon at 1. rewrite map_set_set. symmetry. exact Hon.
Qed.

(** X21.  [off] undoes [on]: removing a handler right after registering it
    under an event type where it was not registered before gives back the
    registry as it was, also when that leaves the type without handlers
    (its entry is then dropped again). *)
Theorem off_undoes_on (ops : list Op) (t : WebhookEventType)
    (h : HandlerRef) :
  registered t h (run_ops ops) = false ->
  off t h (on t h (run_ops ops)) = run_ops ops.
Proof.
  intros Hreg. pose proof (run_ops_well_formed ops) as Hwf.
  generalize dependent (run_ops ops). intros m Hreg Hwf.
  destruct (on_get t h m) as [Hget Hon].
  unfold off. rewrite Hget.
  unfold registered, handlers_of in *.
  destruct (map_get t m) as [s|] eqn:Hm; cbn [Js.nullish] in *.
  - destruct (well_formed_get t m s Hwf Hm) as [Hne _].
    unfold set_add. rewrite Hreg. rewrite (set_delete_fresh h s Hreg).
    destruct (Nat.eqb_spec (List.length s) 0) as [Hlen|Hlen].
    + destruct s; [congruence | discriminate].
    + rewrite Hon, map_set_set. apply map_set_same, Hm.
  - change (set_add h []) with ([] ++ [h])%list in *.
    rewrite (set_delete_fresh h [] eq_refl). cbn [List.length Nat.eqb].
    rewrite Hon, map_set_set, (map_set_absent t [] m Hm), map_delete_app,
      (map_delete_absent t m Hm).
    unfold map_delete. cbn [filter fst]. rewrite type_eqb_refl.
    cbn [negb]. apply app_nil_r.
Qed.

Lemma off_undoes_on_witness :
  off execution_failed 9%nat
    (on execution_failed 9%nat
       (run_ops [On execution_completed 1%nat; On wildcard 2%nat]))
  = run_ops [On execution_completed 1%nat; On wildcard 2%nat].
Proof.
  apply (off_undoes_on [On execution_completed 1%nat; On wildcard 2%nat]
           execution_failed 9%nat).
  reflexivity.
Defined.

(** X22.  [on] and [off] under one event type leave the handlers of every
    other event type as they are. *)
Theorem other_types_are_untouched (t t' : WebhookEventType)
    (h : HandlerRef) (m : Registry) :
  t' <> t ->
  map_get t' (on t h m) = map_get t' m
  /\ map_get t' (off t h m) = map_get t' m.
Proof.
  intros Hne. split.
  - destruct (on_get t h m) as [_ ->]. apply map_get_set_other, Hne.
  - unfold off. destruct (map_get t m) as [s|]; [|reflexivity].
    destruct (List.length (set_delete h s) =? 0)%nat.
    + rewrite map_get_delete_other, map_get_set_other by exact Hne.
      reflexivity.
    + apply map_get_set_other, Hne.
Qed.

Lemma other_types_are_untouched_witness :
  map_get wildcard
    (on execution_completed 1%nat (run_ops [On wildcard 2%nat]))
  = map_get wildcard (run_ops [On wildcard 2%nat])
  /\ map_get wildcard
       (off execution_completed 1%nat (run_ops [On wildcard 2%nat]))
     = map_get wildcard (run_ops [On wildcard 2%nat]).
Proof.
  apply (other_types_are_untouched execution_completed wildcard 1%nat
           (run_ops [On wildcard 2%nat])).
  discriminate.
Defined.

(** Keys are unique. *)
Lemma map_set_keys (t : WebhookEventType) (s : HandlerSet) (m : Registry) :
  map fst (map_set t s m)
  = if map_has t m then map fst m else (map fst m ++ [t])%list.
Proof.
  unfold map_has. induction m as [|[k s0] m IH]; cbn; [reflexivity|].
  destruct (type_eqb k t) eqn:E; cbn; [reflexivity|].
  rewrite IH. destruct (map_get t m); reflexivity.
Qed.

Lemma map_set_NoDup (t : WebhookEventType) (s : HandlerSet) (m : Registry) :
  NoDup (map fst m) -> NoDup (map fst (map_set t s m)).
Proof.
  intros Hnd. rewrite map_set_keys. unfold map_has.
  destruct (map_get t m) eqn:Hget; [exact Hnd|].
  apply map_get_None in Hget.
  apply NoDup_app; auto.
  - repeat constructor. intros [].
  - intros a Ha [<-|[]]. contradiction.
Qed.

Lemma map_delete_NoDup (t : WebhookEventType) (m : Registry) :
  NoDup (map fst m) -> NoDup (map fst (map_delete t m)).
Proof.
  unfold map_delete. induction m as [|[k s0] m IH]; cbn; [auto|].
  intros Hnd. inversion Hnd as [|? ? Hk Hm]; subst.
  destruct (type_eqb k t); cbn; [apply IH, Hm|].
  constructor; [|apply IH, Hm].
  intros Hin. apply Hk. apply in_map_iff in Hin as (x & Hx & Hin).
  apply filter_In in Hin as [Hin _]. apply in_map_iff. eauto.
Qed.

(** X23.  [getRegisteredEvents] never lists an event type twice, after any
    run of [on], [off] and [removeAllHandlers]. *)
Theorem registered_events_are_distinct (ops : list Op) :
  NoDup (getRegisteredEvents (run_ops ops)).
Proof.
  unfold run_ops, getRegisteredEvents.
  assert (H : forall m, NoDup (map fst m) ->
                        NoDup (map fst (fold_left apply_op ops m))).
  { induction ops as [|op ops IH]; intros m Hm; cbn; [exact Hm|].
    apply IH. destruct op as [t h|t h|]; cbn.
    - destruct (on_get t h m) as [_ ->]. apply map_set_NoDup, Hm.
    - unfold off. destruct (map_get t m) as [s|]; [|exact Hm].
      destruct (List.length (set_delete h s) =? 0)%nat.
      + apply map_delete_NoDup, map_set_NoDup, Hm.
      + apply map_set_NoDup, Hm.
    - constructor. }
  apply H. constructor.
Qed.

End RegistryFacts.

(** ** More on dispatch *)

Module DispatchFacts.
Import WebhookEventHandler Observations Scenarios.
Import HandlerFacts.

Lemma launch_invocations (run : Behaviour) (e : WebhookEvent) (g : Group)
    (h : HandlerRef) (hs : list HandlerRef) :
  NoDup hs ->
  forall called,
    (invocations h (fst (fst (fst (launch run e g hs called))))
     <= if set_has h hs then 1 else 0)%nat.
Proof.
  induction 1 as [|x hs Hx Hnd IH]; intros called; cbn [launch].
  - cbn. lia.
  - specialize (IH (called ++ [x])%list).
    destruct (launch run e g hs (called ++ [x])) as [[[evs pending] thrown] c].
    cbn [fst] in IH.
    assert (Hhead : forall evs',
              (invocations h evs' <= if set_has h hs then 1 else 0)%nat ->
              (invocations h (EvInvoke g x :: evs')
               <= if set_has h (x :: hs) then 1 else 0)%nat).
    { intros evs' Hle. unfold invocations in *. cbn [filter].
      unfold set_has in *. cbn [existsb].
      destruct (Nat.eqb_spec h x) as [->|Hne]; cbn [orb List.length].
      - destruct (existsb (Nat.eqb x) hs) eqn:E; [|lia].
        apply (proj1 (set_has_In x hs)) in E. contradiction.
      - exact Hle. }
    destruct (run x (calls_of x called) e) as [|err|p]; cbn [fst].
    + apply Hhead, IH.
    + apply (Hhead []). cbn. lia.
    + apply Hhead, IH.
Qed.

Lemma run_group_invocations
    (sched : list (HandlerRef * PromiseEnd) -> list (HandlerRef * PromiseEnd))
    (run : Behaviour) (e : WebhookEvent) (g : Group) (h : HandlerRef)
    (group : option HandlerSet) (called : list HandlerRef) :
  match group with Some hs => NoDup hs | None => True end ->
  (invocations h (snd (fst (run_group sched run e g group called)))
   <= match group with
      | Some hs => if set_has h hs then 1 else 0
      | None => 0
      end)%nat.
Proof.
  intros Hnd. unfold run_group. destruct group as [hs|]; [|cbn; lia].
  pose proof (launch_invocations run e g h hs Hnd called) as Hle.
  destruct (launch run e g hs called) as [[[evs pending] thrown] c].
  cbn [fst] in Hle.
  destruct thrown; [|destruct (existsb never_settles pending)];
    cbn [fst snd]; rewrite invocations_app, invocations_settle; lia.
Qed.

(** X24.  Whatever the handlers do -- return, throw, reject or hang -- and
    in whatever order promises settle, one [emit] invokes a handler at
    most once for each of the two groups it is registered in; a function
    that is registered neither under the event's type nor under ['*'] is
    never called. *)
Theorem emit_invokes_only_registered_handlers
    (sched : list (HandlerRef * PromiseEnd) -> list (HandlerRef * PromiseEnd))
    (run : Behaviour) (ops : list Op) (e : WebhookEvent) (h : HandlerRef) :
  (invocations h (snd (emit sched run (run_ops ops) e))
   <= (if registered (event e) h (run_ops ops) then 1 else 0)
      + (if registered wildcard h (run_ops ops) then 1 else 0))%nat.
Proof.
  pose proof (run_ops_well_formed ops) as Hwf.
  assert (Hnd : forall t,
            match map_get t (run_ops ops) with
            | Some hs => NoDup hs
            | None => True
            end).
  { intros t. destruct (map_get t (run_ops ops)) as [s|] eqn:Hget; [|exact I].
    apply (well_formed_get t _ s Hwf Hget). }
  unfold emit, registered.
  pose proof (run_group_invocations sched run e SpecificGroup h
                (map_get (event e) (run_ops ops)) [] (Hnd (event e))) as H1.
  destruct (run_group sched run e SpecificGroup
              (map_get (event e) (run_ops ops)) []) as [[end1 tr1] called1].
  cbn [fst snd] in H1.
  pose proof (run_group_invocations sched run e WildcardGroup h
                (map_get wildcard (run_ops ops)) called1 (Hnd wildcard)) as H2.
  destruct (run_group sched run e WildcardGroup
              (map_get wildcard (run_ops ops)) called1) as [[end2 tr2] c2].
  cbn [fst snd] in H2.
  destruct end1; cbn [snd]; rewrite ?invocations_app;
    destruct (map_get (event e) (run_ops ops));
    destruct (map_get wildcard (run_ops ops)); lia.
Qed.

Lemma invoke_events_app (a b : list Event) :
  invoke_events (a ++ b) = (invoke_events a ++ invoke_events b)%list.
Proof. apply filter_app. Qed.

Lemma invoke_events_launched (g : Group) (hs : list HandlerRef) :
  invoke_events (map (EvInvoke g) hs) = map (EvInvoke g) hs.
Proof.
  unfold invoke_events. induction hs as [|h hs IH]; cbn; [reflexivity|].
  rewrite IH. reflexivity.
Qed.

Lemma invoke_events_settle (e : WebhookEvent) (g : Group)
    (pending : list (HandlerRef * PromiseEnd)) :
  invoke_events (settle e g pending) = [].
Proof.
  unfold invoke_events.
  induction pending as [|[x [|err|]] pending IH]; cbn; auto.
Qed.

(** X25.  With handlers that return and whose promises settle, [emit]
    calls the handlers registered under the event's type in the order they
    were registered, and after them the handlers registered under ['*'] in
    the order they were registered; it then resolves. *)
Theorem handlers_run_in_registration_order
    (sched : list (HandlerRef * PromiseEnd) -> list (HandlerRef * PromiseEnd))
    (run : Behaviour) (handlers : Registry) (e : WebhookEvent) :
  no_sync_throw run e -> all_settle run e ->
  fst (emit sched run handlers e) = EmitResolved
  /\ invoke_events (snd (emit sched run handlers e))
     = (map (EvInvoke SpecificGroup) (handlers_of (event e) handlers)
        ++ map (EvInvoke WildcardGroup) (handlers_of wildcard handlers))%list.
Proof.
  intros Hno Hall.
  destruct (emit_well_behaved sched run handlers e Hno Hall)
    as (p1 & p2 & ->).
  split; [reflexivity|]. cbn [snd].
  rewrite !invoke_events_app, !invoke_events_launched,
    !invoke_events_settle, app_nil_r. reflexivity.
Qed.

Lemma handlers_run_in_registration_order_witness :
  fst (emit in_order all_resolve
         (run_ops [On wildcard 4%nat; On execution_failed 3%nat;
                   On execution_failed 1%nat; On wildcard 2%nat])
         (test_event execution_failed)) = EmitResolved
  /\ invoke_events
       (snd (emit in_order all_resolve
               (run_ops [On wildcard 4%nat; On execution_failed 3%nat;
                         On execution_failed 1%nat; On wildcard 2%nat])
               (test_event execution_failed)))
     = (map (EvInvoke SpecificGroup)
          (handlers_of (event (test_event execution_failed))
             (run_ops [On wildcard 4%nat; On execution_failed 3%nat;
                       On execution_failed 1%nat; On wildcard 2%nat]))
        ++ map (EvInvoke WildcardGroup)
             (handlers_of wildcard
                (run_ops [On wildcard 4%nat; On execution_failed 3%nat;
                          On execution_failed 1%nat; On wildcard 2%nat])))%list.
Proof.
  apply (handlers_run_in_registration_order in_order all_resolve
           (run_ops [On wildcard 4%nat; On execution_failed 3%nat;
                     On execution_failed 1%nat; On wildcard 2%nat])
           (test_event execution_failed)).
  - intros h n err. discriminate.
  - intros h n. discriminate.
Defined.

Lemma launch_hanging (run : Behaviour) (e : WebhookEvent) (g : Group)
    (h : HandlerRef) (hs : list HandlerRef) :
  no_sync_throw run e ->
  (forall n, run h n e = ReturnsPromise NeverSettles) ->
  In h hs ->
  forall called,
    existsb never_settles (snd (fst (fst (launch run e g hs called)))) = true.
Proof.
  intros Hno Hh. induction hs as [|x hs IH]; intros Hin called;
    [destruct Hin|].
  cbn [launch].
  destruct (Nat.eq_dec x h) as [->|Hne].
  - rewrite Hh.
    destruct (launch run e g hs (called ++ [h])) as [[[evs p] th] c].
    reflexivity.
  - destruct Hin as [Hx|Hin]; [contradiction|].
    specialize (IH Hin (called ++ [x])%list).
    destruct (launch run e g hs (called ++ [x])) as [[[evs p] th] c].
    cbn [fst snd] in IH.
    destruct (run x (calls_of x called) e) as [|err|q] eqn:E.
    + cbn. exact IH.
    + destruct (Hno x (calls_of x called) err E).
    + cbn. rewrite IH. apply orb_true_r.
Qed.

(** X26.  A handler under the event's type whose promise never settles
    holds the dispatch: the handlers under the event's type have all been
    called, [emit] never resolves, and no handler registered under ['*'] is
    ever called for that event. *)
Theorem hanging_handler_blocks_wildcard_group
    (sched : list (HandlerRef * PromiseEnd) -> list (HandlerRef * PromiseEnd))
    (run : Behaviour) (handlers : Registry) (e : WebhookEvent)
    (h : HandlerRef) :
  no_sync_throw run e ->
  (forall n, run h n e = ReturnsPromise NeverSettles) ->
  In h (handlers_of (event e) handlers) ->
  fst (emit sched run handlers e) = EmitPending
  /\ invoke_events (snd (emit sched run handlers e))
     = map (EvInvoke SpecificGroup) (handlers_of (event e) handlers).
Proof.
  intros Hno Hh Hin. unfold emit, run_group, handlers_of in *.
  destruct (map_get (event e) handlers) as [hs|]; cbn [Js.nullish] in *;
    [|destruct Hin].
  pose proof (launch_hanging run e SpecificGroup h hs Hno Hh Hin []) as Hhang.
  destruct (launch_no_throw run e SpecificGroup hs Hno [])
    as (pending & Hl & _ & _).
  rewrite Hl in Hhang |- *. cbn [fst snd] in Hhang. rewrite Hhang.
  split; [reflexivity|]. cbn [snd].
  rewrite invoke_events_app, invoke_events_launched, invoke_events_settle.
  apply app_nil_r.
Qed.

Lemma hanging_handler_blocks_wildcard_group_witness :
  fst (emit in_order (hangs 1%nat)
         (run_ops [On execution_started 1%nat; On execution_started 2%nat;
                   On wildcard 3%nat])
         (test_event execution_started)) = EmitPending
  /\ invoke_events
       (snd (emit in_order (hangs 1%nat)
               (run_ops [On execution_started 1%nat;
                         On execution_started 2%nat; On wildcard 3%nat])
               (test_event execution_started)))
     = map (EvInvoke SpecificGroup)
         (handlers_of (event (test_event execution_started))
            (run_ops [On execution_started 1%nat; On execution_started 2%nat;
                      On wildcard 3%nat])).
Proof.
  apply (hanging_handler_blocks_wildcard_group in_order (hangs 1%nat)
           (run_ops [On execution_started 1%nat; On execution_started 2%nat;
                     On wildcard 3%nat])
           (test_event execution_started) 1%nat).
  - intros h n err. unfold hangs. destruct (Nat.eqb h 1); discriminate.
  - intros n. reflexivity.
  - simpl. auto.
Defined.

End DispatchFacts.
